(** * A shallow embedding of the shopping-cart module [src/cart.ts]

    The module keeps two module-level variables, [cart] (an array of
    products) and [discount] (a number), and exports six functions that
    read and write them.  The functions are embedded as computations in a
    small state-and-exception monad over the two variables; [console.log]
    is a third effect, recorded as the list of lines written.

    Numbers.  The fields [price], [quantity] and the variable [discount]
    have the TypeScript type [number]: IEEE-754 binary64.  They are
    embedded as the primitive type [float], whose [+], [*], [-] and
    comparisons are the binary64 ones, rounding to nearest even, with
    [NaN], the infinities and the two zeros.  What the operations do is
    taken from their specification over [spec_float]. *)

From Stdlib Require Import ZArith Lia Floats Zpower.
From stdpp Require Import base numbers option list strings.

Set Warnings "-inexact-float".

Open Scope string_scope.
Open Scope list_scope.

(** ** Numbers *)

Abbreviation number := float.

(** The number of binary digits of a mantissa. *)
Abbreviation digits m := (Zpos (digits2_pos m)).

(** The integer a double holds, when it holds one: a zero holds 0, a
    finite double [m * 2^e] holds its value when that is whole, and
    [NaN] and the infinities hold none. *)
Definition SF_to_Z (x : spec_float) : option Z :=
  match x with
  | S754_zero _ => Some 0%Z
  | S754_finite s m e =>
      if (0 <=? e)%Z then Some (cond_Zopp s (Zpos m * 2 ^ e))
      else if (Zpos m mod 2 ^ (- e) =? 0)%Z
           then Some (cond_Zopp s (Zpos m / 2 ^ (- e)))
           else None
  | _ => None
  end.

Definition to_Z (x : number) : option Z := SF_to_Z (Prim2SF x).

(** A finite positive double [m * 2^e] holds the integer [a]. *)
Definition holds (m : positive) (e a : Z) : Prop :=
  (0 <= e ∧ a = Zpos m * 2 ^ e)%Z ∨ (e < 0 ∧ Zpos m = a * 2 ^ (- e))%Z.

(** A mantissa from which no bit has been shifted out. *)
Definition exact_record (m : Z) : shr_record :=
  {| shr_m := m; shr_r := false; shr_s := false |}.

Module Number.

(** [Number.isInteger(n)]: [n] is finite and whole. *)
Definition isInteger (n : number) : bool :=
  match to_Z n with
  | Some _ => true
  | None => false
  end.

(** [Number.MAX_VALUE] and [Number.MAX_SAFE_INTEGER] *)
Definition MAX_VALUE : number := 0x1.fffffffffffffp+1023%float.

Definition MAX_SAFE_INTEGER : number := 9007199254740991%float.

End Number.

(** ** Values *)

(** A JavaScript value as seen by the schema: the validator only
    distinguishes strings, numbers and everything else. *)
Inductive JsValue : Type :=
  | JsUndefined
  | JsNull
  | JsBoolean (b : bool)
  | JsNumber (n : number)
  | JsString (s : string)
  | JsObject.

(** [type Product = { id: string; name: string; price: number; quantity: number }] *)
Record Product : Type := mkProduct {
  id : string;
  name : string;
  price : number;
  quantity : number
}.

(** The argument of [addProduct] as it exists at run time, before the
    schema has looked at it: an object whose four properties hold
    arbitrary values (a missing property reads as [undefined]). *)
Record Candidate : Type := mkCandidate {
  c_id : JsValue;
  c_name : JsValue;
  c_price : JsValue;
  c_quantity : JsValue
}.

(** The run-time object of a well-typed product. *)
Definition to_candidate (p : Product) : Candidate :=
  {| c_id := JsString (id p);
     c_name := JsString (name p);
     c_price := JsNumber (price p);
     c_quantity := JsNumber (quantity p) |}.

(** ** The schema (zod)

    The checks are the ones of zod 3: [z.number()] refuses [NaN] and
    lets the infinities through, and [.int()] is [Number.isInteger],
    with no upper bound. *)

Module z.

(** [z.string()] *)
Definition string (v : JsValue) : option string :=
  match v with JsString s => Some s | _ => None end.

(** [z.number()]: a value of type number other than [NaN]. *)
Definition number (v : JsValue) : option number :=
  match v with
  | JsNumber n => if is_nan n then None else Some n
  | _ => None
  end.

(** [.nonnegative()]: [n >= 0] *)
Definition nonnegative (n : float) : bool := (0 <=? n)%float.

(** [.positive()]: [n > 0] *)
Definition positive (n : float) : bool := (0 <? n)%float.

(** [.int()]: [Number.isInteger(n)] *)
Definition int (n : float) : bool := Number.isInteger n.

(** A check chained on a schema. *)
Definition refine {A} (s : JsValue → option A) (check : A → bool)
    (v : JsValue) : option A :=
  match s v with
  | Some a => if check a then Some a else None
  | None => None
  end.

End z.

(** [const ProductSchema = z.object({ id: z.string(), name: z.string(),
      price: z.number().nonnegative(),
      quantity: z.number().int().positive() })];
    [ProductSchema_parse c] is [Some] of the typed product when
    [ProductSchema.parse] returns and [None] when it throws. *)
Definition ProductSchema_parse (c : Candidate) : option Product :=
  match z.string (c_id c),
        z.string (c_name c),
        z.refine z.number z.nonnegative (c_price c),
        z.refine (z.refine z.number z.int) z.positive (c_quantity c) with
  | Some i, Some n, Some p, Some q =>
      Some {| id := i; name := n; price := p; quantity := q |}
  | _, _, _, _ => None
  end.

(** ** Module state and effects *)

(** [let cart: Product[] = []; let discount = 0;] *)
Record CartState : Type := mkState {
  cart : list Product;
  discount : number
}.

Definition initial : CartState := {| cart := []; discount := 0 |}.

Inductive exn : Type :=
  | ZodError
  | Error (message : string).

Inductive outcome (A : Type) : Type :=
  | Return (a : A)
  | Throw (e : exn).
Arguments Return {A} a.
Arguments Throw {A} e.

(** A line written by [console.log]: the text of the template and the
    number interpolated after it. *)
Record ConsoleLine : Type := mkLine {
  line_text : string;
  line_value : number
}.

(** What a call leaves behind: its outcome, the module state after it
    and the lines it wrote. *)
Record Ran (A : Type) : Type := mkRan {
  result : outcome A;
  after : CartState;
  console : list ConsoleLine
}.
Arguments mkRan {A} result after console.
Arguments result {A} r.
Arguments after {A} r.
Arguments console {A} r.

Definition M (A : Type) : Type := CartState → Ran A.

Global Instance M_ret : MRet M :=
  λ A (a : A) s, mkRan (Return a) s [].

(** Sequencing: a [Throw] skips the rest, and keeps the state and the
    lines written so far. *)
Global Instance M_bind : MBind M :=
  λ A B (k : A → M B) (m : M A) s,
    let r := m s in
    match result r with
    | Return a =>
        let r' := k a (after r) in
        mkRan (result r') (after r') (console r ++ console r')
    | Throw e => mkRan (Throw e) (after r) (console r)
    end.

Definition throw {A} (e : exn) : M A :=
  λ s, mkRan (Throw e) s [].

Definition read_cart : M (list Product) :=
  λ s, mkRan (Return (cart s)) s [].

Definition write_cart (c : list Product) : M unit :=
  λ s, mkRan (Return tt) {| cart := c; discount := discount s |} [].

Definition read_discount : M number :=
  λ s, mkRan (Return (discount s)) s [].

Definition write_discount (d : number) : M unit :=
  λ s, mkRan (Return tt) {| cart := cart s; discount := d |} [].

Definition console_log (text : string) (v : number) : M unit :=
  λ s, mkRan (Return tt) s [mkLine text v].

(** [ProductSchema.parse(product)] as a statement: it throws a
    [ZodError] or returns.  The schema neither coerces nor defaults, so
    the properties the function reads from [product] afterwards are the
    ones of the validated product, which is what is handed back here. *)
Definition parse (c : Candidate) : M Product :=
  match ProductSchema_parse c with
  | Some p => mret p
  | None => throw ZodError
  end.

(** ** Array helpers *)

(** [arr.reduce(f, init)] *)
Definition reduce {A B} (f : B → A → B) (init : B) (arr : list A) : B :=
  fold_left f arr init.

(** [p.quantity += n] on one stored object. *)
Definition add_quantity (p : Product) (n : number) : Product :=
  {| id := id p; name := name p; price := price p;
     quantity := (quantity p + n)%float |}.

(** ** The exported functions *)

(** [cart.find(...)] returns a reference to the first matching element;
    the reference is its position [i], and the update of its [quantity]
    is the update of the array at [i]. *)
Definition addProduct (product : Candidate) : M unit :=
  product ← parse product;
  c ← read_cart;
  match list_find (λ p, id p = id product) c with
  | Some (i, poductExisting) =>
      write_cart (<[i := add_quantity poductExisting (quantity product)]> c)
  | None =>
      write_cart (c ++ [product])
  end.

Definition removeProduct (productId : string) : M unit :=
  c ← read_cart;
  write_cart (filter (λ p, id p ≠ productId) c).

Definition getProductCount : M number :=
  c ← read_cart;
  mret (reduce (λ acc p, acc + quantity p)%float 0%float c).

Definition getTotal : M number :=
  c ← read_cart;
  let total := reduce (λ acc p, acc + price p * quantity p)%float 0%float c in
  console_log "Total before discount: " total;;
  d ← read_discount;
  mret (total * (1 - d))%float.

Definition applyDiscount (code : string) : M unit :=
  if decide (code = "PROMO10") then
    write_discount 0.1
  else
    throw (Error "Code promo invalide").

Definition resetCart : M unit :=
  write_cart [];;
  write_discount 0.

(** ** Calls and reachable states *)

(** One call of an exported function, with its argument. *)
Inductive Call : Type :=
  | add_product (item : Candidate)
  | remove_product (productId : string)
  | get_product_count
  | get_total
  | apply_discount (code : string)
  | reset_cart.

(** The module state a call leaves, whether it returns or throws. *)
Definition step (c : Call) (s : CartState) : CartState :=
  match c with
  | add_product item => after (addProduct item s)
  | remove_product productId => after (removeProduct productId s)
  | get_product_count => after (getProductCount s)
  | get_total => after (getTotal s)
  | apply_discount code => after (applyDiscount code s)
  | reset_cart => after (resetCart s)
  end.

(** The states the module can be in: it is loaded with an empty cart and
    no discount, and changes only through the exported functions. *)
Inductive reachable : CartState → Prop :=
  | reachable_initial : reachable initial
  | reachable_step c s : reachable s → reachable (step c s).

(** A sequence of [addProduct] calls, one after the other. *)
Definition add_all (items : list Candidate) : M unit :=
  foldr (λ item rest, addProduct item;; rest) (mret tt) items.

(** ** Vocabulary of the specification *)

Definition is_string (v : JsValue) : Prop := ∃ s, v = JsString s.

Definition is_integer (n : number) : Prop := ∃ k : Z, to_Z n = Some k.

(** A candidate violates a constraint: its id or its name is not a
    string, its price is not a number ([NaN] included) or is negative,
    or its quantity is not a positive integer. *)
Definition violates (c : Candidate) : Prop :=
  ¬ is_string (c_id c) ∨
  ¬ is_string (c_name c) ∨
  (∀ n, c_price c = JsNumber n → is_nan n = true ∨ (n <? 0)%float = true) ∨
  (∀ n, c_quantity c = JsNumber n →
        ¬ (is_integer n ∧ (0 <? n)%float = true)).

(** The constraints on a line item: price at least 0, quantity a
    positive integer. *)
Definition valid_item (p : Product) : Prop :=
  (0 <=? price p)%float = true
  ∧ is_integer (quantity p) ∧ (0 <? quantity p)%float = true.

(** The sum over a sequence of items of a number attached to each, in
    binary64: the terms are added one by one, in the order of the
    sequence, to 0. *)
Definition sum_over (f : Product → number) (items : list Product) : number :=
  foldr (λ p sum, sum + f p)%float 0%float (reverse items).

(** The same sum in the integers, for quantities that are whole. *)
Definition exact_quantity (p : Product) : Z := default 0%Z (to_Z (quantity p)).

Definition exact_total (items : list Product) : Z :=
  foldr (λ p sum, exact_quantity p + sum)%Z 0%Z items.


(** The invariants of the data model: at most one line item per id, and
    every stored quantity a positive integer. *)
Definition unique_ids (items : list Product) : Prop :=
  NoDup (id <$> items).

Definition positive_integer (n : number) : Prop :=
  is_integer n ∧ (0 <? n)%float = true.

Definition positive_integer_quantities (items : list Product) : Prop :=
  Forall (λ p, positive_integer (quantity p)) items.

(** What the sums of doubles allow instead: a quantity that has
    overflowed is [Infinity]. *)
Definition positive_integer_or_Infinity (n : number) : Prop :=
  positive_integer n ∨ n = infinity.

(** The array [addProduct] leaves in [cart] once the schema has accepted
    the product: the branch on [cart.find] alone. *)
Definition stored_after_add (product : Product) (c : list Product)
    : list Product :=
  match list_find (λ p, id p = id product) c with
  | Some (i, poductExisting) =>
      <[i := add_quantity poductExisting (quantity product)]> c
  | None => c ++ [product]
  end.

(** ** The test file's schema, and what a call shows besides the state *)

Module cart_test.

(** [tests/cart.test.ts] declares a schema of its own, on which its last
    case runs: [price] is [z.number().positive()] there, where the
    module has [z.number().nonnegative()]. *)
Definition ProductSchema_parse (c : Candidate) : option Product :=
  match z.string (c_id c),
        z.string (c_name c),
        z.refine z.number z.positive (c_price c),
        z.refine (z.refine z.number z.int) z.positive (c_quantity c) with
  | Some i, Some n, Some p, Some q =>
      Some {| id := i; name := n; price := p; quantity := q |}
  | _, _, _, _ => None
  end.

End cart_test.

(** The exception a run ended with, if any. *)
Definition exception {A} (r : Ran A) : option exn :=
  match result r with
  | Throw e => Some e
  | Return _ => None
  end.

(** The exception a call throws, and the lines it writes. *)
Definition thrown (c : Call) (s : CartState) : option exn :=
  match c with
  | add_product item => exception (addProduct item s)
  | remove_product productId => exception (removeProduct productId s)
  | get_product_count => exception (getProductCount s)
  | get_total => exception (getTotal s)
  | apply_discount code => exception (applyDiscount code s)
  | reset_cart => exception (resetCart s)
  end.

Definition written (c : Call) (s : CartState) : list ConsoleLine :=
  match c with
  | add_product item => console (addProduct item s)
  | remove_product productId => console (removeProduct productId s)
  | get_product_count => console (getProductCount s)
  | get_total => console (getTotal s)
  | apply_discount code => console (applyDiscount code s)
  | reset_cart => console (resetCart s)
  end.

(** A sequence of calls, first to last. *)
Definition run_calls (cs : list Call) (s : CartState) : CartState :=
  foldl (λ s c, step c s) s cs.

(** The total before the discount. *)
Definition subtotal (items : list Product) : number :=
  sum_over (λ p, price p * quantity p)%float items.

(** What [addProduct] never touches in a stored entry. *)
Definition label (p : Product) : string * string * number :=
  (id p, name p, price p).

(** ** Scenarios

    Concrete products, candidates and states, used to run the cases of
    the test suite and to instantiate the theorems. *)

Definition entry (i n : string) (p q : number) : Product :=
  {| id := i; name := n; price := p; quantity := q |}.

Definition literal (i n : string) (p q : number) : Candidate :=
  to_candidate (entry i n p q).

(** The rejected object of the test suite: price -5, quantity 0. *)
Definition badProduct : Candidate :=
  {| c_id := JsString "1"; c_name := JsString "Bad";
     c_price := JsNumber (-5); c_quantity := JsNumber 0 |}.

(** A cart holding two entries, with the promo code already applied. *)
Definition two_items : CartState :=
  {| cart := [entry "2" "Mug" 8 1; entry "1" "T-shirt" 15 3];
     discount := 0.1 |}.

(** Three accepted calls, two of them under one id. *)
Definition three_adds : list Product :=
  [entry "1" "Item 1" 10 2; entry "2" "Item 2" 15 3;
   entry "1" "Item 1" 10 4].

(** A state reached through five calls. *)
Definition after_some_calls : CartState :=
  step (remove_product "2")
    (step (add_product (literal "1" "T-shirt" 20 1))
       (step (apply_discount "PROMO10")
          (step (add_product (literal "2" "Mug" 8 1))
             (step (add_product (literal "1" "T-shirt" 20 1)) initial)))).

(** Three accepted adds under one id, whose quantities add up to
    2^53 + 1. *)
Definition unsafe_adds : list Product :=
  [entry "a" "A" 0 Number.MAX_SAFE_INTEGER; entry "a" "A" 0 1;
   entry "a" "A" 0 1].

(** Four accepted adds, three of them under one id, around one of
    2^53 - 1. *)
Definition regrouped_adds : list Product :=
  [entry "a" "A" 0 1; entry "b" "B" 0 Number.MAX_SAFE_INTEGER;
   entry "a" "A" 0 1; entry "a" "A" 0 1].

(** The largest double, added twice under one id. *)
Definition overflowing_calls : list Call :=
  [add_product (literal "1" "Bulk" 0 Number.MAX_VALUE);
   add_product (literal "1" "Bulk" 0 Number.MAX_VALUE)].

(** * Properties *)

(** ** Binary64 arithmetic on whole numbers

    What is needed of [+] below: the sum of two doubles that hold
    positive integers holds a positive integer or is [Infinity]; it
    holds their sum in the integers when that is below 2^53; and a
    positive integer is held by one double only.  All of it is derived
    from the specification of the operations over [spec_float]. *)

Section binary64.
Local Open Scope Z_scope.

Lemma digits_bounds m : 2 ^ (digits m - 1) <= Zpos m < 2 ^ digits m.
Proof.
  induction m as [m IH|m IH|]; simpl digits2_pos.
  - rewrite Pos2Z.inj_succ, (Pos2Z.inj_xI m).
    replace (Z.succ (digits m) - 1) with (Z.succ (digits m - 1)) by lia.
    rewrite !Z.pow_succ_r by lia.
    revert IH. generalize (2 ^ (digits m - 1)) (2 ^ digits m). lia.
  - rewrite Pos2Z.inj_succ, (Pos2Z.inj_xO m).
    replace (Z.succ (digits m) - 1) with (Z.succ (digits m - 1)) by lia.
    rewrite !Z.pow_succ_r by lia.
    revert IH. generalize (2 ^ (digits m - 1)) (2 ^ digits m). lia.
  - simpl. lia.
Qed.

Lemma digits_unique m k : 2 ^ (k - 1) <= Zpos m < 2 ^ k -> digits m = k.
Proof.
  intros [Hlo Hhi]. pose proof (digits_bounds m) as [Hlo' Hhi'].
  assert (0 < k).
  { destruct (Z_lt_le_dec 0 k); [done|].
    assert (2 ^ k <= 2 ^ 0) by (destruct (Z.eq_dec k 0) as [->|]; [lia|rewrite Z.pow_neg_r by lia; simpl; lia]).
    simpl in *. lia. }
  destruct (Z.lt_trichotomy (digits m) k) as [Hlt|[Heq|Hgt]]; [|done|].
  - assert (2 ^ digits m <= 2 ^ (k - 1)) by (apply Z.pow_le_mono_r; lia). lia.
  - assert (2 ^ k <= 2 ^ (digits m - 1)) by (apply Z.pow_le_mono_r; lia). lia.
Qed.

Lemma digits_mul_pow2 m p j :
  0 <= j -> Zpos p = Zpos m * 2 ^ j -> digits p = digits m + j.
Proof.
  intros Hj Hp. apply digits_unique. rewrite Hp.
  pose proof (digits_bounds m) as [Hlo Hhi].
  replace (digits m + j - 1) with ((digits m - 1) + j) by lia.
  rewrite !Z.pow_add_r by lia.
  assert (0 < 2 ^ j) by (apply Z.pow_pos_nonneg; lia).
  split; nia.
Qed.

Lemma iter_xO_value m n : Zpos (Pos.iter xO m n) = Zpos m * 2 ^ Zpos n.
Proof.
  change (Pos.iter xO m n) with (shift_pos n m).
  rewrite shift_pos_correct. change (Z.pow_pos 2 n) with (2 ^ Zpos n). lia.
Qed.

Lemma shl_align_value mx ex ez :
  ez <= ex ->
  shl_align mx ex ez = (fst (shl_align mx ex ez), ez)
  /\ Zpos (fst (shl_align mx ex ez)) = Zpos mx * 2 ^ (ex - ez).
Proof.
  intros Hle. unfold shl_align.
  destruct (ez - ex) as [|d|d] eqn:Hd; simpl.
  - assert (ex = ez) as -> by lia. rewrite Z.sub_diag. simpl. split; [reflexivity|lia].
  - lia.
  - rewrite iter_xO_value. replace (ex - ez) with (Zpos d) by lia. split; reflexivity.
Qed.

Lemma shl_align_none mx ex ex' : ex <= ex' -> shl_align mx ex ex' = (mx, ex).
Proof. intros Hle. unfold shl_align. destruct (ex' - ex) eqn:Hd; try reflexivity. lia. Qed.

Lemma iter_pos_nat {A} (f : A -> A) p x :
  SpecFloat.iter_pos f p x = @Nat.iter (Pos.to_nat p) A f x.
Proof.
  revert x. induction p as [p IH|p IH|]; intros x; simpl SpecFloat.iter_pos.
  - rewrite !IH, Pos2Nat.inj_xI. simpl. rewrite Nat.add_0_r.
    rewrite <-Nat.iter_add, <-Nat.iter_succ_r. done.
  - rewrite !IH, Pos2Nat.inj_xO. simpl. rewrite Nat.add_0_r.
    by rewrite <-Nat.iter_add.
  - done.
Qed.

Lemma shr_1_m mrs : 0 <= shr_m mrs -> shr_m (shr_1 mrs) = shr_m mrs / 2.
Proof.
  destruct mrs as [[|[p|p|]|p] r s]; simpl; intros Hm; try lia; try done.
  - rewrite (Pos2Z.inj_xI p). Z.div_mod_to_equations. lia.
  - rewrite (Pos2Z.inj_xO p). Z.div_mod_to_equations. lia.
Qed.

Lemma shr_1_exact m : 0 <= m -> (2 | m) -> shr_1 (exact_record m) = exact_record (m / 2).
Proof.
  intros Hm [k ->]. rewrite Z.div_mul by lia.
  destruct k as [|k|k]; try lia; [done|].
  replace (Zpos k * 2) with (Zpos k~0) by lia. done.
Qed.

Lemma iter_shr_m k mrs :
  0 <= shr_m mrs ->
  shr_m (@Nat.iter k _ shr_1 mrs) = shr_m mrs / 2 ^ Z.of_nat k.
Proof.
  intros Hm. induction k as [|k IH].
  - simpl. by rewrite Z.div_1_r.
  - rewrite Nat2Z.inj_succ, Z.pow_succ_r by lia. simpl.
    rewrite shr_1_m; rewrite IH.
    + rewrite Z.div_div by (try apply Z.pow_pos_nonneg; lia). f_equal. lia.
    + apply Z.div_pos; [done|]. apply Z.pow_pos_nonneg; lia.
Qed.

Lemma iter_shr_exact k m :
  0 <= m -> (2 ^ Z.of_nat k | m) ->
  @Nat.iter k _ shr_1 (exact_record m) = exact_record (m / 2 ^ Z.of_nat k).
Proof.
  intros Hm. induction k as [|k IH]; intros Hdiv.
  - simpl. by rewrite Z.div_1_r.
  - rewrite Nat2Z.inj_succ, Z.pow_succ_r in * by lia. simpl.
    assert (0 < 2 ^ Z.of_nat k) by (apply Z.pow_pos_nonneg; lia).
    destruct Hdiv as [q ->].
    rewrite IH by (exists (q * 2); lia).
    replace (q * (2 * 2 ^ Z.of_nat k)) with ((q * 2) * 2 ^ Z.of_nat k) by lia.
    rewrite Z.div_mul by lia.
    rewrite shr_1_exact; [|nia|by exists q].
    rewrite Z.div_mul by lia.
    replace (q * 2 * 2 ^ Z.of_nat k) with (q * (2 * 2 ^ Z.of_nat k)) by lia.
    rewrite Z.div_mul by lia. done.
Qed.

(** [shr] by [n], when [n >= 0] *)
Lemma shr_spec mrs e n :
  0 <= n -> 0 <= shr_m mrs ->
  snd (shr mrs e n) = e + n
  /\ shr_m (fst (shr mrs e n)) = shr_m mrs / 2 ^ n.
Proof.
  intros Hn Hm. unfold shr. destruct n as [|p|p]; simpl; try lia.
  - split; [lia|by rewrite Z.div_1_r].
  - split; [done|]. rewrite iter_pos_nat, iter_shr_m by done.
    by rewrite positive_nat_Z.
Qed.

Lemma shr_exact m e n :
  0 <= n -> 0 <= m -> (2 ^ n | m) ->
  shr (exact_record m) e n = (exact_record (m / 2 ^ n), e + n).
Proof.
  intros Hn Hm Hdiv. unfold shr. destruct n as [|p|p]; simpl; try lia.
  - by rewrite Z.div_1_r, Z.add_0_r.
  - rewrite iter_pos_nat, iter_shr_exact; rewrite ?positive_nat_Z; done.
Qed.

Lemma fexp_eq e : fexp prec emax e = Z.max (e - 53) (-1074).
Proof. reflexivity. Qed.

Lemma digits_mono m m' : Zpos m <= Zpos m' -> digits m <= digits m'.
Proof.
  intros Hle. pose proof (digits_bounds m) as [Hlo _].
  pose proof (digits_bounds m') as [_ Hhi].
  destruct (Z_le_gt_dec (digits m) (digits m')) as [|Hgt]; [done|].
  assert (2 ^ digits m' <= 2 ^ (digits m - 1)) by (apply Z.pow_le_mono_r; lia).
  lia.
Qed.

Lemma shr_fexp_pos m e l :
  0 < m -> -1074 <= e ->
  0 < shr_m (fst (shr_fexp prec emax m e l))
  /\ snd (shr_fexp prec emax m e l) = Z.max e (fexp prec emax (Zdigits2 m + e)).
Proof.
  intros Hm He. unfold shr_fexp.
  assert (shr_m (shr_record_of_loc m l) = m) as Hrec
    by (by destruct l as [|[]]).
  destruct m as [|m|m]; try lia. simpl Zdigits2.
  set (n := fexp prec emax (digits m + e) - e).
  destruct (Z_le_gt_dec n 0) as [Hn|Hn].
  - assert (shr (shr_record_of_loc (Zpos m) l) e n
            = (shr_record_of_loc (Zpos m) l, e)) as ->
      by (unfold shr; destruct n; try done; lia).
    simpl. rewrite Hrec. split; lia.
  - destruct (shr_spec (shr_record_of_loc (Zpos m) l) e n) as [-> ->];
      [lia|rewrite Hrec; lia|].
    rewrite Hrec. split; [|lia].
    assert (n = digits m - 53) as Hn' by (unfold n in *; rewrite fexp_eq in *; lia).
    pose proof (digits_bounds m) as [Hlo _].
    replace (digits m - 1) with (52 + n) in Hlo by lia.
    rewrite Z.pow_add_r in Hlo by lia.
    assert (0 < 2 ^ n) by (apply Z.pow_pos_nonneg; lia).
    apply Z.div_str_pos. split; [done|]. nia.
Qed.

Lemma round_nearest_even_pos q l : 0 < q -> 0 < round_nearest_even q l.
Proof. intros Hq. destruct l as [|[]]; simpl; try lia. destruct (Z.even q); lia. Qed.

(** Rounding a positive mantissa gives a positive number or overflows;
    the exponent does not go below the one the format asks for. *)
Lemma round_pos (M : positive) e :
  -1074 <= e ->
  binary_round_aux prec emax false (Zpos M) e loc_Exact = S754_infinity false
  \/ exists p e'',
       binary_round_aux prec emax false (Zpos M) e loc_Exact
       = S754_finite false p e''
       /\ fexp prec emax (digits M + e) <= e''.
Proof.
  intros He. unfold binary_round_aux.
  destruct (shr_fexp_pos (Zpos M) e loc_Exact) as [Hq He']; [lia..|].
  destruct (shr_fexp prec emax (Zpos M) e loc_Exact) as [mrs' e']. simpl in *.
  set (m1 := round_nearest_even (shr_m mrs') (loc_of_shr_record mrs')).
  assert (0 < m1) as Hm1 by (by apply round_nearest_even_pos).
  destruct (shr_fexp_pos m1 e' loc_Exact) as [Hq' He'']; [lia..|].
  destruct (shr_fexp prec emax m1 e' loc_Exact) as [mrs'' e'']. simpl in *.
  destruct (shr_m mrs'') as [|p|p]; try lia.
  destruct (e'' <=? emax - prec); [|by left].
  right. exists p, e''. split; [done|lia].
Qed.

(** Rounding a number that fits in 53 bits is exact. *)
Lemma round_exact (M N : positive) j :
  0 <= j -> Zpos M = Zpos N * 2 ^ j -> digits N <= 53 ->
  53 - digits N <= j -> j <= 1074 ->
  exists p,
    Zpos p = Zpos N * 2 ^ (53 - digits N)
    /\ binary_round_aux prec emax false (Zpos M) (- j) loc_Exact
       = S754_finite false p (digits N - 53).
Proof.
  intros Hj HM HN Hshift Hj'.
  pose proof (digits_mul_pow2 N M j Hj HM) as HdM.
  set (k := 53 - digits N) in *.
  assert (0 <= k) by lia.
  assert (0 < 2 ^ k) by (apply Z.pow_pos_nonneg; lia).
  assert (exists p, Zpos p = Zpos N * 2 ^ k) as [p Hp].
  { exists (Z.to_pos (Zpos N * 2 ^ k)). rewrite Z2Pos.id; [done|nia]. }
  exists p. split; [done|].
  assert (digits p = 53) as Hdp.
  { rewrite (digits_mul_pow2 N p k) by done. lia. }
  unfold binary_round_aux, shr_fexp. simpl Zdigits2.
  rewrite HdM, !fexp_eq.
  replace (Z.max (digits N + j + - j - 53) (-1074) - - j) with (j - k) by lia.
  change (shr_record_of_loc (Zpos M) loc_Exact) with (exact_record (Zpos M)).
  assert (Zpos M = Zpos p * 2 ^ (j - k)) as HMp.
  { rewrite Hp, <-Z.mul_assoc, <-Z.pow_add_r by lia.
    by replace (k + (j - k)) with j by lia. }
  rewrite shr_exact; [|lia|lia|by exists (Zpos p)].
  rewrite HMp, Z.div_mul by (apply Z.pow_nonzero; lia).
  simpl loc_of_shr_record. simpl round_nearest_even. simpl shr_m at 1.
  simpl Zdigits2. rewrite Hdp, fexp_eq.
  replace (Z.max (53 + (- j + (j - k)) - 53) (-1074) - (- j + (j - k)))
    with 0 by lia.
  simpl. replace (- j + (j - k)) with (digits N - 53) by lia.
  destruct (digits N - 53 <=? emax - prec) eqn:Hle; [done|].
  apply Z.leb_gt in Hle. unfold emax, prec in Hle. lia.
Qed.

Lemma SF_to_Z_finite m e a :
  holds m e a -> SF_to_Z (S754_finite false m e) = Some a.
Proof.
  intros [[He ->]|[He Hm]]; simpl.
  - by rewrite (proj2 (Z.leb_le 0 e)).
  - rewrite (proj2 (Z.leb_gt 0 e)) by done.
    assert (0 < 2 ^ (- e)) by (apply Z.pow_pos_nonneg; lia).
    rewrite Hm, Z.mod_mul, Z.div_mul by lia. done.
Qed.

Lemma SF_to_Z_positive x a :
  SF_to_Z x = Some a -> 0 < a ->
  exists m e, x = S754_finite false m e /\ holds m e a.
Proof.
  destruct x as [s|s| |s m e]; simpl; try done.
  - intros [= <-]. lia.
  - destruct (0 <=? e) eqn:He.
    + apply Z.leb_le in He. intros [= <-] Ha.
      assert (0 < 2 ^ e) by (apply Z.pow_pos_nonneg; lia).
      destruct s; simpl in *; [nia|]. exists m, e. split; [done|]. by left.
    + apply Z.leb_gt in He.
      assert (0 < 2 ^ (- e)) by (apply Z.pow_pos_nonneg; lia).
      destruct (Zpos m mod 2 ^ (- e) =? 0) eqn:Hmod; [|done].
      apply Z.eqb_eq in Hmod. intros [= <-] Ha.
      assert (0 <= Zpos m / 2 ^ (- e)) by (apply Z.div_pos; lia).
      destruct s; simpl in *; [lia|]. exists m, e. split; [done|]. right.
      split; [done|]. rewrite Z.mul_comm. by apply Z.div_exact; [lia|].
Qed.

Lemma valid_finite s m e :
  valid_binary (S754_finite s m e) = true ->
  fexp prec emax (digits m + e) = e /\ -1074 <= e <= 971.
Proof.
  unfold valid_binary, bounded, canonical_mantissa.
  intros [Hc He]%andb_prop. apply Z.eqb_eq in Hc. apply Z.leb_le in He.
  rewrite fexp_eq in *. unfold emax, prec in *. lia.
Qed.

(** The sum of two positive doubles, before rounding. *)
Lemma SFadd_positive mx ex my ey :
  valid_binary (S754_finite false mx ex) = true ->
  valid_binary (S754_finite false my ey) = true ->
  exists M,
    Zpos M = Zpos mx * 2 ^ (ex - Z.min ex ey) + Zpos my * 2 ^ (ey - Z.min ex ey)
    /\ SF64add (S754_finite false mx ex) (S754_finite false my ey)
       = binary_round_aux prec emax false (Zpos M) (Z.min ex ey) loc_Exact
    /\ Z.min ex ey <= fexp prec emax (digits M + Z.min ex ey).
Proof.
  intros [Hx Hex]%valid_finite [Hy Hey]%valid_finite.
  set (ez := Z.min ex ey).
  destruct (shl_align_value mx ex ez) as [_ HMx]; [lia|].
  destruct (shl_align_value my ey ez) as [_ HMy]; [lia|].
  exists (fst (shl_align mx ex ez) + fst (shl_align my ey ez))%positive.
  rewrite Pos2Z.inj_add, HMx, HMy. split; [done|].
  set (M := (fst (shl_align mx ex ez) + fst (shl_align my ey ez))%positive).
  assert (Zpos M = Zpos mx * 2 ^ (ex - ez) + Zpos my * 2 ^ (ey - ez)) as HM
    by (unfold M; rewrite Pos2Z.inj_add; lia).
  assert (ez <= fexp prec emax (digits M + ez)) as Hfexp.
  { assert (0 < 2 ^ (ex - ez)) by (apply Z.pow_pos_nonneg; lia).
    assert (0 < 2 ^ (ey - ez)) by (apply Z.pow_pos_nonneg; lia).
    rewrite fexp_eq in *.
    destruct (Z.min_spec ex ey) as [[_ Hez]|[_ Hez]]; fold ez in Hez.
    - assert (digits mx <= digits M); [|lia].
      apply digits_mono. rewrite HM, Hez, Z.sub_diag. simpl. nia.
    - assert (digits my <= digits M); [|lia].
      apply digits_mono. rewrite HM, Hez, Z.sub_diag. simpl. nia. }
  split; [|done].
  unfold SF64add, SFadd. fold ez. simpl cond_Zopp.
  change (Zpos (fst (shl_align mx ex ez)) + Zpos (fst (shl_align my ey ez)))
    with (Zpos M).
  unfold binary_normalize, binary_round.
  rewrite shl_align_none by done. by rewrite HM.
Qed.

Lemma holds_scaled m e a ez :
  holds m e a -> ez <= e -> ez <= 0 ->
  Zpos m * 2 ^ (e - ez) = a * 2 ^ (- ez).
Proof.
  intros [[He ->]|[He ->]] Hez Hez'.
  - rewrite <-Z.mul_assoc, <-Z.pow_add_r by lia. f_equal; f_equal; lia.
  - rewrite <-Z.mul_assoc, <-Z.pow_add_r by lia. f_equal; f_equal; lia.
Qed.

Lemma holds_large m e a :
  valid_binary (S754_finite false m e) = true ->
  holds m e a -> 0 < e -> 2 ^ 53 <= a.
Proof.
  intros [Hc He]%valid_finite [[_ ->]|[? _]] Hpos; [|lia].
  rewrite fexp_eq in Hc.
  pose proof (digits_bounds m) as [Hlo _].
  replace (digits m - 1) with 52 in Hlo by lia.
  assert (2 ^ 1 <= 2 ^ e) by (apply Z.pow_le_mono_r; lia).
  change (2 ^ 53) with (2 ^ 52 * 2 ^ 1). nia.
Qed.

(** Adding two positive integers held by doubles: the result is a
    positive integer or has overflowed, and it is the exact sum when
    that is below 2^53. *)
Lemma SFadd_integers x y a b :
  valid_binary x = true -> valid_binary y = true ->
  SF_to_Z x = Some a -> SF_to_Z y = Some b -> 0 < a -> 0 < b ->
  (SF64add x y = S754_infinity false
   \/ exists c, SF_to_Z (SF64add x y) = Some c /\ 0 < c)
  /\ (a + b < 2 ^ 53 -> SF_to_Z (SF64add x y) = Some (a + b)).
Proof.
  intros Hvx Hvy Hx Hy Ha Hb.
  destruct (SF_to_Z_positive x a Hx Ha) as (mx & ex & -> & Hmx).
  destruct (SF_to_Z_positive y b Hy Hb) as (my & ey & -> & Hmy).
  destruct (SFadd_positive mx ex my ey Hvx Hvy) as (M & HM & -> & Hfexp).
  pose proof (valid_finite _ _ _ Hvx) as [_ Hex].
  pose proof (valid_finite _ _ _ Hvy) as [_ Hey].
  set (ez := Z.min ex ey) in *.
  assert (a + b < 2 ^ 53 ->
          SF_to_Z (binary_round_aux prec emax false (Zpos M) ez loc_Exact)
          = Some (a + b)) as Hexact.
  { intros Hsmall.
    assert (ez <= 0) as Hez.
    { destruct (Z_le_gt_dec ez 0) as [|Hgt]; [done|].
      pose proof (holds_large mx ex a Hvx Hmx). lia. }
    rewrite (holds_scaled mx ex a ez), (holds_scaled my ey b ez) in HM
      by (done || lia).
    rewrite <-Z.mul_add_distr_r in HM.
    destruct (a + b) as [|N|N] eqn:HN; try lia.
    assert (digits N <= 53) as HdN.
    { pose proof (digits_bounds N) as [Hlo _].
      destruct (Z_le_gt_dec (digits N) 53) as [|Hgt]; [done|].
      assert (2 ^ 53 <= 2 ^ (digits N - 1)) by (apply Z.pow_le_mono_r; lia).
      lia. }
    rewrite (digits_mul_pow2 N M (- ez)), fexp_eq in Hfexp by (lia || done).
    replace ez with (- - ez) by lia.
    destruct (round_exact M N (- ez)) as (p & Hp & ->); [lia|done|lia..|].
    apply SF_to_Z_finite. unfold holds.
    destruct (Z.eq_dec (digits N) 53) as [Hd|Hd].
    - left. rewrite Hd in *. simpl in Hp. split; lia.
    - right. split; [lia|]. rewrite Hp. f_equal. f_equal. lia. }
  split; [|done].
  destruct (Z_lt_ge_dec (a + b) (2 ^ 53)) as [Hsmall|Hlarge].
  { right. exists (a + b). split; [by apply Hexact|lia]. }
  destruct (round_pos M ez) as [->|(p & e'' & -> & He'')]; [lia|by left|].
  right. exists (Zpos p * 2 ^ e'').
  assert (0 <= e'') as Hnonneg.
  { destruct (Z_le_gt_dec ez 0) as [Hez|Hez]; [|lia].
    rewrite (holds_scaled mx ex a ez), (holds_scaled my ey b ez) in HM
      by (done || lia).
    rewrite <-Z.mul_add_distr_r in HM.
    assert (54 - ez <= digits M); [|rewrite fexp_eq in He''; lia].
    pose proof (digits_bounds M) as [_ Hhi].
    destruct (Z_le_gt_dec (54 - ez) (digits M)) as [|Hgt]; [done|].
    assert (2 ^ digits M <= 2 ^ (53 - ez)) by (apply Z.pow_le_mono_r; lia).
    assert (0 < 2 ^ (- ez)) by (apply Z.pow_pos_nonneg; lia).
    replace (53 - ez) with (53 + - ez) in * by lia.
    rewrite Z.pow_add_r in * by lia. nia. }
  split.
  - apply SF_to_Z_finite. by left.
  - assert (0 < 2 ^ e'') by (apply Z.pow_pos_nonneg; lia). nia.
Qed.

Lemma Prim2SF_infinity : Prim2SF infinity = S754_infinity false.
Proof. reflexivity. Qed.

Lemma add_integers (x y : float) a b :
  to_Z x = Some a -> to_Z y = Some b -> 0 < a -> 0 < b ->
  ((x + y)%float = infinity
   \/ exists c, to_Z (x + y) = Some c /\ 0 < c)
  /\ (a + b < 2 ^ 53 -> to_Z (x + y) = Some (a + b)).
Proof.
  unfold to_Z. intros Hx Hy Ha Hb. rewrite add_spec.
  destruct (SFadd_integers (Prim2SF x) (Prim2SF y) a b)
    as [[Hinf|Hint] Hexact]; try done; try apply Prim2SF_valid.
  - split; [|done]. left. apply Prim2SF_inj. by rewrite add_spec, Hinf.
  - split; [|done]. by right.
Qed.

Lemma SF_to_Z_zero x : SF_to_Z x = Some 0 -> exists s, x = S754_zero s.
Proof.
  destruct x as [s|s| |s m e]; simpl; try done; [by exists s|].
  destruct (0 <=? e) eqn:He.
  - apply Z.leb_le in He. intros [= Hval].
    assert (0 < 2 ^ e) by (apply Z.pow_pos_nonneg; lia).
    destruct s; simpl in Hval; nia.
  - apply Z.leb_gt in He.
    assert (0 < 2 ^ (- e)) by (apply Z.pow_pos_nonneg; lia).
    destruct (Zpos m mod 2 ^ (- e) =? 0) eqn:Hmod; [|done].
    apply Z.eqb_eq in Hmod. intros [= Hval].
    assert (Zpos m / 2 ^ (- e) = 0) as Hq by (destruct s; simpl in Hval; lia).
    pose proof (Z.div_mod (Zpos m) (2 ^ (- e))). lia.
Qed.

Lemma add_exact (x y : float) a b :
  to_Z x = Some a -> to_Z y = Some b -> 0 <= a -> 0 <= b ->
  a + b < 2 ^ 53 -> to_Z (x + y) = Some (a + b).
Proof.
  intros Hx Hy Ha Hb Hsum.
  destruct (Z.eq_dec a 0) as [->|Ha']; [|destruct (Z.eq_dec b 0) as [->|Hb']].
  - unfold to_Z in *. rewrite add_spec.
    apply SF_to_Z_zero in Hx as [s ->].
    destruct (Prim2SF y) as [s'|s'| |s' m e]; try done.
    assert (b = 0) as -> by (by injection Hy). by destruct s, s'.
  - unfold to_Z in *. rewrite add_spec.
    apply SF_to_Z_zero in Hy as [s ->]. rewrite Z.add_0_r.
    destruct (Prim2SF x) as [s'|s'| |s' m e]; try done.
    assert (a = 0) as -> by (by injection Hx). by destruct s, s'.
  - by apply add_integers; [..|lia|lia|].
Qed.

Lemma add_infinity (y : float) b :
  to_Z y = Some b -> (infinity + y)%float = infinity.
Proof.
  unfold to_Z. intros Hy. apply Prim2SF_inj.
  rewrite add_spec, Prim2SF_infinity.
  by destruct (Prim2SF y) as [s|s| |s m e].
Qed.

Lemma add_zero_infinity (x : float) :
  to_Z x = Some 0 -> (x + infinity)%float = infinity.
Proof.
  unfold to_Z. intros [s Hx]%SF_to_Z_zero. apply Prim2SF_inj.
  by rewrite add_spec, Prim2SF_infinity, Hx.
Qed.

Lemma Prim2SF_zero : Prim2SF 0 = S754_zero false.
Proof. reflexivity. Qed.

Lemma is_nan_spec n : is_nan n = true <-> Prim2SF n = S754_nan.
Proof.
  unfold is_nan. rewrite FloatAxioms.eqb_spec, negb_true_iff. unfold SFeqb.
  destruct (Prim2SF n) as [s|s| |s m e]; simpl; try done.
  - by destruct s.
  - rewrite Z.compare_refl, Pos.compare_cont_refl. by destruct s.
Qed.

Lemma positive_to_Z n a :
  to_Z n = Some a -> (0 <? n)%float = true <-> 0 < a.
Proof.
  unfold to_Z. rewrite FloatAxioms.ltb_spec, Prim2SF_zero. unfold SFltb.
  destruct (Prim2SF n) as [s|s| |s m e] eqn:Hn; simpl; try done.
  - intros [= <-]. split; [done|lia].
  - destruct (0 <=? e) eqn:He.
    + apply Z.leb_le in He. intros [= <-].
      assert (0 < 2 ^ e) by (apply Z.pow_pos_nonneg; lia).
      destruct s; simpl; split; try done; nia.
    + apply Z.leb_gt in He.
      assert (0 < 2 ^ (- e)) by (apply Z.pow_pos_nonneg; lia).
      destruct (Zpos m mod 2 ^ (- e) =? 0) eqn:Hmod; [|done].
      apply Z.eqb_eq in Hmod. intros [= <-].
      assert (0 < Zpos m / 2 ^ (- e)).
      { apply Z.div_str_pos. split; [lia|].
        pose proof (Z.div_mod (Zpos m) (2 ^ (- e))).
        destruct (Z_le_gt_dec (2 ^ (- e)) (Zpos m)); [done|].
        rewrite Z.mod_small in Hmod; lia. }
      destruct s; simpl; split; try done; lia.
Qed.

(** Comparisons with 0: [NaN] compares with nothing, and a number that
    is not at least 0 is below it. *)
Lemma nan_not_nonnegative n : is_nan n = true -> (0 <=? n)%float = false.
Proof.
  intros Hn%is_nan_spec. rewrite FloatAxioms.leb_spec, Hn. done.
Qed.

Lemma negative_not_nonnegative n :
  (n <? 0)%float = true -> (0 <=? n)%float = false.
Proof.
  rewrite FloatAxioms.ltb_spec, FloatAxioms.leb_spec, Prim2SF_zero.
  unfold SFltb, SFleb.
  destruct (Prim2SF n) as [s|s| |s m e]; simpl; try done; by destruct s.
Qed.

Lemma not_nonnegative_negative n :
  is_nan n = false -> (0 <=? n)%float = false -> (n <? 0)%float = true.
Proof.
  intros Hnan. assert (Prim2SF n <> S754_nan) as Hn.
  { intros Hn%is_nan_spec. congruence. }
  rewrite FloatAxioms.ltb_spec, FloatAxioms.leb_spec, Prim2SF_zero.
  unfold SFltb, SFleb.
  destruct (Prim2SF n) as [s|s| |s m e]; simpl; try done; by destruct s.
Qed.

Lemma positive_nonnegative n :
  (0 <? n)%float = true
  <-> (0 <=? n)%float = true /\ (n =? 0)%float = false.
Proof.
  rewrite FloatAxioms.ltb_spec, FloatAxioms.leb_spec, FloatAxioms.eqb_spec.
  rewrite Prim2SF_zero. unfold SFltb, SFleb, SFeqb.
  destruct (Prim2SF n) as [s|s| |s m e]; simpl;
    try destruct s; simpl; intuition congruence.
Qed.

Lemma positive_integer_to_Z n :
  positive_integer n <-> exists k, to_Z n = Some k /\ 0 < k.
Proof.
  unfold positive_integer, is_integer. split.
  - intros [[k Hk] Hpos]. exists k. split; [done|].
    by apply (positive_to_Z n k Hk).
  - intros (k & Hk & Hpos). split; [by exists k|].
    by apply (positive_to_Z n k Hk).
Qed.

Lemma infinity_not_integer : to_Z infinity = None.
Proof. reflexivity. Qed.

(** Adding a positive integer to a quantity. *)
Lemma add_positive_integer x y :
  positive_integer_or_Infinity x -> positive_integer y ->
  positive_integer_or_Infinity (x + y)%float.
Proof.
  intros [Hx| ->] Hy.
  - apply positive_integer_to_Z in Hx as (a & Ha & Hapos).
    apply positive_integer_to_Z in Hy as (b & Hb & Hbpos).
    destruct (add_integers x y a b Ha Hb Hapos Hbpos) as [[Hinf|Hint] _].
    + by right.
    + left. by apply positive_integer_to_Z.
  - right. destruct Hy as [[b Hb] _]. by apply (add_infinity y b).
Qed.

(** The accumulator of a [reduce] starts at 0, which adds nothing to a
    positive integer or to [Infinity]. *)
Lemma add_0_l y : positive_integer_or_Infinity y -> (0 + y)%float = y.
Proof.
  intros [Hy| ->]; [|reflexivity].
  apply positive_integer_to_Z in Hy as (b & Hb & Hbpos).
  apply SF_to_Z_positive in Hb as (m & e & Hy & _); [|done].
  apply Prim2SF_inj. by rewrite add_spec, Prim2SF_zero, Hy.
Qed.

Lemma add_quantities x y :
  positive_integer_or_Infinity x -> positive_integer_or_Infinity y ->
  positive_integer_or_Infinity (x + y)%float.
Proof.
  intros Hx [Hy| ->]; [by apply add_positive_integer|].
  right. destruct Hx as [Hx| ->]; [|reflexivity].
  apply positive_integer_to_Z in Hx as (a & Ha & Hapos).
  apply SF_to_Z_positive in Ha as (m & e & Hx & _); [|done].
  apply Prim2SF_inj. by rewrite add_spec, Prim2SF_infinity, Hx.
Qed.

Lemma quantity_not_0 n : positive_integer_or_Infinity n -> n <> 0%float.
Proof.
  intros [[_ Hn]|Hn] ->; [done|].
  apply (f_equal Prim2SF) in Hn. discriminate.
Qed.

(** A positive integer is held by one double only. *)
Lemma holds_digits m e a pa :
  holds m e a -> a = Zpos pa -> digits m + e = digits pa.
Proof.
  intros [[He Ha]|[He Hm]] ->.
  - symmetry. by apply digits_mul_pow2.
  - rewrite (digits_mul_pow2 pa m (- e)); [lia|lia|done].
Qed.

Lemma holds_inj m e m' e' a :
  valid_binary (S754_finite false m e) = true ->
  valid_binary (S754_finite false m' e') = true ->
  holds m e a -> holds m' e' a -> 0 < a -> m = m' /\ e = e'.
Proof.
  intros [Hc _]%valid_finite [Hc' _]%valid_finite Hm Hm' Ha.
  destruct a as [|pa|pa]; try lia.
  rewrite (holds_digits m e _ pa Hm eq_refl) in Hc.
  rewrite (holds_digits m' e' _ pa Hm' eq_refl) in Hc'.
  assert (e = e') as <- by congruence. split; [|done].
  destruct Hm as [[He Hv]|[He Hv]], Hm' as [[He' Hv']|[He' Hv']]; try lia.
  assert (0 < 2 ^ e) by (apply Z.pow_pos_nonneg; lia).
  assert (Zpos m = Zpos m') by nia. congruence.
Qed.

Lemma to_Z_inj (x y : float) a :
  to_Z x = Some a -> to_Z y = Some a -> 0 < a -> x = y.
Proof.
  unfold to_Z. intros Hx Hy Ha.
  pose proof (Prim2SF_valid x) as Hvx. pose proof (Prim2SF_valid y) as Hvy.
  apply SF_to_Z_positive in Hx as (m & e & Hx & Hm); [|done].
  apply SF_to_Z_positive in Hy as (m' & e' & Hy & Hm'); [|done].
  rewrite Hx in Hvx. rewrite Hy in Hvy.
  destruct (holds_inj m e m' e' a) as [-> ->]; try done.
  apply Prim2SF_inj. congruence.
Qed.

End binary64.

Open Scope float_scope.

(** ** The schema against the constraints *)

Lemma int_spec n : z.int n = true ↔ is_integer n.
Proof.
  unfold z.int, Number.isInteger, is_integer.
  destruct (to_Z n) as [k|]; split; try done; [by exists k|by intros [k ?]].
Qed.

Lemma integer_not_nan n : is_integer n → is_nan n = false.
Proof.
  intros [k Hk]. destruct (is_nan n) eqn:Hn; [|done].
  apply is_nan_spec in Hn. unfold to_Z in Hk. by rewrite Hn in Hk.
Qed.

Lemma nonnegative_not_nan n : (0 <=? n) = true → is_nan n = false.
Proof.
  intros Hn. destruct (is_nan n) eqn:Hnan; [|done].
  apply nan_not_nonnegative in Hnan. congruence.
Qed.

(** What [z.number()] followed by the checks of the two numeric fields
    lets through. *)
Lemma price_schema v n :
  z.refine z.number z.nonnegative v = Some n ↔
  v = JsNumber n ∧ (0 <=? n) = true.
Proof.
  unfold z.refine, z.number, z.nonnegative. split.
  - destruct v as [| | |m| |]; try done.
    destruct (is_nan m); [done|].
    destruct (0 <=? m) eqn:Hm; [|done]. by intros [= <-].
  - intros [-> Hn]. by rewrite (nonnegative_not_nan n), Hn.
Qed.

Lemma quantity_schema v n :
  z.refine (z.refine z.number z.int) z.positive v = Some n ↔
  v = JsNumber n ∧ positive_integer n.
Proof.
  unfold z.refine, z.number, z.positive, positive_integer. split.
  - destruct v as [| | |m| |]; try done.
    destruct (is_nan m); [done|].
    destruct (z.int m) eqn:Hint; [|done].
    destruct (0 <? m) eqn:Hm; [|done]. intros [= <-].
    by rewrite <-int_spec.
  - intros (-> & Hint & Hn).
    rewrite (integer_not_nan n) by done.
    apply int_spec in Hint. by rewrite Hint, Hn.
Qed.

(** The schema accepts exactly the run-time objects of valid items, and
    hands back the item. *)
Lemma parse_Some c p :
  ProductSchema_parse c = Some p ↔ c = to_candidate p ∧ valid_item p.
Proof.
  unfold ProductSchema_parse, valid_item. split.
  - destruct c as [[| | | |i|] [| | | |n|] pr q]; simpl; try done.
    destruct (z.refine z.number z.nonnegative pr) as [x|] eqn:Hpr; [|done].
    destruct (z.refine (z.refine z.number z.int) z.positive q)
      as [y|] eqn:Hq; [|done].
    apply price_schema in Hpr as [-> Hx].
    apply quantity_schema in Hq as [-> [Hy Hy']].
    by intros [= <-].
  - intros (-> & Hp & Hint & Hq). destruct p as [i n pr q]. simpl in *.
    rewrite (proj2 (price_schema (JsNumber pr) pr)) by done.
    by rewrite (proj2 (quantity_schema (JsNumber q) q)) by done.
Qed.

(** The schema rejects exactly the candidates that violate a constraint. *)
Lemma parse_None c : ProductSchema_parse c = None ↔ violates c.
Proof.
  unfold ProductSchema_parse, violates, is_string. split.
  - destruct c as [i n pr q]. simpl.
    destruct i; simpl;
      try solve [intros _; left; intros [? ?]; discriminate].
    destruct n; simpl;
      try solve [intros _; right; left; intros [? ?]; discriminate].
    destruct (z.refine z.number z.nonnegative pr) as [x|] eqn:Hpr.
    2:{ intros _. right; right; left. intros m ->.
        destruct (is_nan m) eqn:Hnan; [by left|]. right.
        apply not_nonnegative_negative; [done|].
        destruct (0 <=? m) eqn:Hm; [|done].
        by rewrite (proj2 (price_schema (JsNumber m) m)) in Hpr. }
    destruct (z.refine (z.refine z.number z.int) z.positive q)
      as [y|] eqn:Hq; [done|].
    intros _. right; right; right. intros m -> Hm.
    by rewrite (proj2 (quantity_schema (JsNumber m) m)) in Hq.
  - intros [Hid|[Hname|[Hprice|Hquantity]]].
    + destruct (c_id c); simpl; try done. destruct Hid. eauto.
    + destruct (z.string (c_id c)); [|done].
      destruct (c_name c); simpl; try done. destruct Hname. eauto.
    + destruct (z.string (c_id c)); [|done].
      destruct (z.string (c_name c)); [|done].
      destruct (z.refine z.number z.nonnegative (c_price c))
        as [x|] eqn:Hpr; [|done].
      apply price_schema in Hpr as [Hpr Hx].
      destruct (Hprice x Hpr) as [Hnan|Hneg].
      * apply nan_not_nonnegative in Hnan. congruence.
      * apply negative_not_nonnegative in Hneg. congruence.
    + destruct (z.string (c_id c)); [|done].
      destruct (z.string (c_name c)); [|done].
      destruct (z.refine z.number z.nonnegative (c_price c)); [|done].
      destruct (z.refine (z.refine z.number z.int) z.positive (c_quantity c))
        as [y|] eqn:Hq; [|done].
      apply quantity_schema in Hq as [Hq Hy].
      by destruct (Hquantity y Hq).
Qed.

(** ** What each exported function does to the module state *)

Lemma addProduct_rejected c s :
  ProductSchema_parse c = None →
  addProduct c s = mkRan (Throw ZodError) s [].
Proof. intros Hc. unfold addProduct, parse. by rewrite Hc. Qed.

Lemma addProduct_accepted c p s :
  ProductSchema_parse c = Some p →
  addProduct c s =
    mkRan (Return tt)
      {| cart := stored_after_add p (cart s); discount := discount s |} [].
Proof.
  intros Hc. unfold addProduct, parse, stored_after_add. rewrite Hc.
  unfold mbind, M_bind, mret, M_ret. simpl.
  by destruct (list_find _ (cart s)) as [[i existing]|].
Qed.

Lemma removeProduct_run productId s :
  removeProduct productId s =
    mkRan (Return tt)
      {| cart := filter (λ p, id p ≠ productId) (cart s);
         discount := discount s |} [].
Proof. reflexivity. Qed.

(** The sum as [reduce] computes it: term after term, from the left. *)
Lemma sum_over_nil f : sum_over f [] = 0.
Proof. reflexivity. Qed.

Lemma sum_over_snoc f items p :
  sum_over f (items ++ [p]) = sum_over f items + f p.
Proof. unfold sum_over. by rewrite reverse_snoc. Qed.

Lemma reduce_sum_over (f : Product → number) items :
  reduce (λ acc p, acc + f p) 0 items = sum_over f items.
Proof.
  unfold reduce. induction items as [|p items IH] using rev_ind; [done|].
  by rewrite fold_left_app, sum_over_snoc, IH.
Qed.

Lemma getProductCount_run s :
  getProductCount s = mkRan (Return (sum_over quantity (cart s))) s [].
Proof.
  unfold getProductCount, mbind, M_bind, mret, M_ret. simpl.
  by rewrite reduce_sum_over.
Qed.

Lemma getTotal_run s :
  getTotal s =
    let total := sum_over (λ p, price p * quantity p) (cart s) in
    mkRan (Return (total * (1 - discount s))) s
      [mkLine "Total before discount: " total].
Proof.
  unfold getTotal, mbind, M_bind, mret, M_ret. simpl.
  by rewrite reduce_sum_over.
Qed.

Lemma applyDiscount_PROMO10 s :
  applyDiscount "PROMO10" s =
    mkRan (Return tt) {| cart := cart s; discount := 0.1 |} [].
Proof. reflexivity. Qed.

Lemma applyDiscount_other code s :
  code ≠ "PROMO10" →
  applyDiscount code s = mkRan (Throw (Error "Code promo invalide")) s [].
Proof. intros Hcode. unfold applyDiscount. by rewrite decide_False. Qed.

Lemma resetCart_run s :
  resetCart s = mkRan (Return tt) initial [].
Proof. reflexivity. Qed.

(** ** The array after an accepted [addProduct] *)

(** [cart.find] hits: the array splits around the first entry with the
    id, and that entry alone is updated. *)
Lemma stored_after_add_hit product before existing rest :
  id existing = id product →
  Forall (λ p, id p ≠ id product) before →
  stored_after_add product (before ++ existing :: rest) =
    before ++ add_quantity existing (quantity product) :: rest.
Proof.
  intros Hid Hbefore. unfold stored_after_add.
  assert (list_find (λ p, id p = id product) (before ++ existing :: rest)
          = Some (length before, existing)) as ->.
  { apply list_find_Some. split_and!.
    - by rewrite list_lookup_middle.
    - done.
    - intros j y Hj Hlt. rewrite lookup_app_l in Hj by done.
      rewrite Forall_lookup in Hbefore. by eapply Hbefore. }
  rewrite insert_app_r_alt, Nat.sub_diag by done. reflexivity.
Qed.

(** [cart.find] misses: the product is pushed at the end. *)
Lemma stored_after_add_miss product c :
  Forall (λ p, id p ≠ id product) c →
  stored_after_add product c = c ++ [product].
Proof.
  intros Hmiss. unfold stored_after_add.
  by rewrite (proj2 (list_find_None (λ p, id p = id product) c) Hmiss).
Qed.

(** One of the two always applies. *)
Lemma first_entry_split (i : string) (c : list Product) :
  Forall (λ p, id p ≠ i) c ∨
  ∃ before existing rest,
    c = before ++ existing :: rest ∧ id existing = i ∧
    Forall (λ p, id p ≠ i) before.
Proof.
  induction c as [|p c IH]; [by left|].
  destruct (decide (id p = i)) as [Hp|Hp].
  - right. exists [], p, c. by split_and!.
  - destruct IH as [Hmiss|(before & existing & rest & -> & Hid & Hbefore)].
    + left. by constructor.
    + right. exists (p :: before), existing, rest.
      split_and!; [done..|by constructor].
Qed.


(** ** The discount rate along the calls *)

Lemma discount_step (c : Call) (s : CartState) :
  discount (step c s) =
    match c with
    | apply_discount code =>
        if decide (code = "PROMO10") then 0.1 else discount s
    | reset_cart => 0
    | _ => discount s
    end.
Proof.
  destruct c as [item|productId| | |code|]; unfold step.
  - destruct (ProductSchema_parse item) as [p|] eqn:Hitem.
    + by erewrite addProduct_accepted.
    + by rewrite addProduct_rejected.
  - by rewrite removeProduct_run.
  - by rewrite getProductCount_run.
  - by rewrite getTotal_run.
  - case_decide as Hcode.
    + subst code. by rewrite applyDiscount_PROMO10.
    + by rewrite applyDiscount_other.
  - by rewrite resetCart_run.
Qed.

Lemma reachable_discount s : reachable s → discount s = 0 ∨ discount s = 0.1.
Proof.
  induction 1 as [|c s _ IH]; [by left|].
  rewrite discount_step.
  destruct c; try done; [case_decide; auto|by left].
Qed.

(** ** [getTotal] *)

(** C1.  For every cart state, [getTotal] returns the sum over the
    stored items of price times quantity, multiplied by one minus the
    discount rate, and leaves the cart state as it was.  The arithmetic
    is the one of the code: each product is added to the running sum in
    cart order, starting from 0, in binary64.  On an empty cart it
    returns 0, whichever of its two rates the module holds. *)
Theorem getTotal_correct (s : CartState) :
  result (getTotal s) =
    Return (sum_over (λ p, price p * quantity p) (cart s) * (1 - discount s))
  ∧ after (getTotal s) = s
  ∧ (∀ f items p, sum_over f [] = 0
                  ∧ sum_over f (items ++ [p]) = sum_over f items + f p)
  ∧ (∀ s', reachable s' → cart s' = [] → result (getTotal s') = Return 0).
Proof.
  split_and!.
  - by rewrite getTotal_run.
  - by rewrite getTotal_run.
  - intros f items p. split; [apply sum_over_nil|apply sum_over_snoc].
  - intros s' [Hd|Hd]%reachable_discount Hs';
      rewrite getTotal_run, Hs', Hd; reflexivity.
Qed.

(** The only observable besides the result is the line written to the
    console, which carries the total before the discount. *)
Lemma getTotal_console s :
  console (getTotal s) =
    [mkLine "Total before discount: "
       (sum_over (λ p, price p * quantity p) (cart s))].
Proof. by rewrite getTotal_run. Qed.

(** ** [addProduct]: rejection *)

(** C2.  A candidate that violates a constraint (id or name not a
    string, price not a number or negative, quantity not a positive
    integer) makes [addProduct] throw the schema's error, and the cart
    state, items and discount rate, is exactly what it was before the
    call. *)
Theorem addProduct_rejects_invalid (c : Candidate) (s : CartState) :
  violates c →
  result (addProduct c s) = Throw ZodError ∧ after (addProduct c s) = s.
Proof.
  intros Hc%parse_None. by rewrite addProduct_rejected.
Qed.

(** ** [applyDiscount] *)

(** C3.  [applyDiscount "PROMO10"] returns and sets the discount rate to
    exactly 0.1, whatever rate was there before, and touches nothing
    else; with any other code it throws the invalid-code error and
    leaves the whole cart state as it was. *)
Theorem applyDiscount_correct (code : string) (s : CartState) :
  (code = "PROMO10" →
     result (applyDiscount code s) = Return tt ∧
     after (applyDiscount code s) =
       {| cart := cart s; discount := 0.1 |})
  ∧ (code ≠ "PROMO10" →
     result (applyDiscount code s) = Throw (Error "Code promo invalide") ∧
     after (applyDiscount code s) = s).
Proof.
  split.
  - intros ->. by rewrite applyDiscount_PROMO10.
  - intros Hcode. by rewrite applyDiscount_other.
Qed.

Lemma applyDiscount_keeps_items_aux code s :
  cart (after (applyDiscount code s)) = cart s.
Proof.
  destruct (decide (code = "PROMO10")) as [->|Hcode].
  - by rewrite applyDiscount_PROMO10.
  - by rewrite applyDiscount_other.
Qed.

(** C10.  [applyDiscount] never modifies the items: whether it returns
    or throws, the stored items, and so the product count, are the same
    after the call as before it. *)
Theorem applyDiscount_keeps_items (code : string) (s : CartState) :
  cart (after (applyDiscount code s)) = cart s
  ∧ result (getProductCount (after (applyDiscount code s))) =
      result (getProductCount s).
Proof.
  pose proof (applyDiscount_keeps_items_aux code s) as Hcart.
  split; [done|]. by rewrite !getProductCount_run, Hcart.
Qed.

(** ** [resetCart] *)

(** C8.  [resetCart] returns from every state, leaves the items empty
    and the discount rate 0, and the queries made right after it return
    the defaults of an empty cart: count 0 and total 0. *)
Theorem resetCart_correct (s : CartState) :
  result (resetCart s) = Return tt
  ∧ after (resetCart s) = {| cart := []; discount := 0 |}
  ∧ result (getProductCount (after (resetCart s))) = Return 0
  ∧ result (getTotal (after (resetCart s))) = Return 0.
Proof.
  rewrite resetCart_run, getProductCount_run, getTotal_run.
  by split_and!.
Qed.

(** ** The discount rate over the life of the module *)

(** C9.  The discount rate starts at 0; a call changes it only when it
    is [applyDiscount "PROMO10"], which sets it to 0.1, or [resetCart],
    which sets it back to 0; so in every reachable state it is exactly
    0 or exactly 0.1. *)
Theorem discount_is_0_or_PROMO10 :
  discount initial = 0
  ∧ (∀ c s,
       discount (step c s) =
         match c with
         | apply_discount code =>
             if decide (code = "PROMO10") then 0.1 else discount s
         | reset_cart => 0
         | _ => discount s
         end)
  ∧ (∀ s, reachable s → discount s = 0 ∨ discount s = 0.1).
Proof.
  split_and!; [done|apply discount_step|].
  induction 1 as [|c s _ IH]; [by left|].
  rewrite discount_step.
  destruct c; try done; [case_decide; auto|by left].
Qed.

(** ** [addProduct]: acceptance *)


(** The integer a valid quantity holds. *)
Lemma exact_quantity_spec p :
  positive_integer (quantity p) →
  to_Z (quantity p) = Some (exact_quantity p) ∧ (0 < exact_quantity p)%Z.
Proof.
  intros (k & Hk & Hpos)%positive_integer_to_Z.
  unfold exact_quantity. by rewrite Hk.
Qed.


(** Adding twice under one id, to a cart that does not hold it, stores
    one entry with the two quantities added and the first name and
    price. *)
Lemma addProduct_twice (p p' : Product) (s : CartState) :
  valid_item p → valid_item p' → id p' = id p →
  Forall (λ e, id e ≠ id p) (cart s) →
  cart (after (addProduct (to_candidate p')
                 (after (addProduct (to_candidate p) s)))) =
    cart s ++ [add_quantity p (quantity p')].
Proof.
  intros Hp Hp' Hid Hmiss.
  rewrite (addProduct_accepted _ p'), (addProduct_accepted _ p)
    by (by apply parse_Some).
  simpl. rewrite (stored_after_add_miss p) by done.
  apply stored_after_add_hit; [done|by rewrite Hid].
Qed.

(** ** [getProductCount] *)

Lemma add_all_run (items : list Product) (s : CartState) :
  Forall valid_item items →
  add_all (to_candidate <$> items) s =
    mkRan (Return tt)
      {| cart := foldl (λ c p, stored_after_add p c) (cart s) items;
         discount := discount s |} [].
Proof.
  intros Hitems. revert s.
  induction Hitems as [|p items Hp _ IH]; intros s; simpl.
  - by destruct s.
  - unfold mbind, M_bind.
    rewrite (addProduct_accepted _ p) by (by apply parse_Some).
    simpl. by rewrite IH.
Qed.

Lemma valid_items_quantities items :
  Forall valid_item items → positive_integer_quantities items.
Proof.
  intros Hitems. eapply Forall_impl; [exact Hitems|].
  by intros p (_ & Hint & Hpos).
Qed.

Lemma exact_total_app l1 l2 :
  exact_total (l1 ++ l2) = (exact_total l1 + exact_total l2)%Z.
Proof.
  unfold exact_total. induction l1 as [|p l1 IH]; simpl; [done|].
  rewrite IH. lia.
Qed.

Lemma exact_total_nonnegative c :
  positive_integer_quantities c → (0 ≤ exact_total c)%Z.
Proof.
  unfold exact_total. induction 1 as [|p c Hp _ IH]; simpl; [done|].
  apply exact_quantity_spec in Hp as [_ Hp]. lia.
Qed.

(** Below 2^53 every stored quantity, and their sum, is the integer it
    stands for. *)
Lemma exact_total_stored_after_add product c :
  positive_integer (quantity product) →
  positive_integer_quantities c →
  (exact_total c + exact_quantity product < 2 ^ 53)%Z →
  positive_integer_quantities (stored_after_add product c)
  ∧ exact_total (stored_after_add product c) =
      (exact_total c + exact_quantity product)%Z.
Proof.
  intros Hproduct Hc Hbound.
  destruct (first_entry_split (id product) c)
    as [Hmiss|(before & existing & rest & -> & Hid & Hbefore)].
  - rewrite stored_after_add_miss by done. split.
    + apply Forall_app. split; [done|]. by apply Forall_singleton.
    + rewrite exact_total_app. unfold exact_total. simpl. lia.
  - rewrite stored_after_add_hit by done.
    apply Forall_app in Hc as [Hbefore' [Hexisting Hrest]%Forall_cons].
    pose proof (exact_total_nonnegative _ Hbefore') as Hb.
    pose proof (exact_total_nonnegative _ Hrest) as Hr.
    rewrite exact_total_app in Hbound.
    change (exact_total (existing :: rest))
      with (exact_quantity existing + exact_total rest)%Z in Hbound.
    destruct (exact_quantity_spec _ Hexisting) as [He Hepos].
    destruct (exact_quantity_spec _ Hproduct) as [Hq Hqpos].
    assert (to_Z (quantity existing + quantity product) =
              Some (exact_quantity existing + exact_quantity product)%Z)
      as Hsum by (apply add_exact; [done..|lia|lia|lia]).
    split.
    + apply Forall_app. split; [done|]. constructor; [|done]. simpl.
      apply positive_integer_to_Z. eexists. split; [exact Hsum|lia].
    + rewrite !exact_total_app.
      change (exact_total (add_quantity existing (quantity product) :: rest))
        with (exact_quantity (add_quantity existing (quantity product))
              + exact_total rest)%Z.
      change (exact_total (existing :: rest))
        with (exact_quantity existing + exact_total rest)%Z.
      unfold exact_quantity at 1. simpl. rewrite Hsum. simpl. lia.
Qed.

Lemma exact_total_foldl (items c : list Product) :
  positive_integer_quantities items →
  positive_integer_quantities c →
  (exact_total c + exact_total items < 2 ^ 53)%Z →
  positive_integer_quantities (foldl (λ c p, stored_after_add p c) c items)
  ∧ exact_total (foldl (λ c p, stored_after_add p c) c items) =
      (exact_total c + exact_total items)%Z.
Proof.
  intros Hitems. revert c.
  induction Hitems as [|p items Hp Hitems IH]; intros c Hc Hbound; simpl.
  - split; [done|]. change (exact_total []) with 0%Z. lia.
  - change (exact_total (p :: items))
      with (exact_quantity p + exact_total items)%Z in *.
    pose proof (exact_total_nonnegative _ Hitems) as Hnonneg.
    destruct (exact_total_stored_after_add p c) as [Hc' Htotal];
      [done|done|lia|].
    destruct (IH (stored_after_add p c)) as [Hfold Hexact];
      [done|lia|]. split; [done|]. lia.
Qed.

(** The count of such a cart is its sum in the integers. *)
Lemma exact_count c acc a :
  to_Z acc = Some a → (0 ≤ a)%Z →
  positive_integer_quantities c →
  (a + exact_total c < 2 ^ 53)%Z →
  to_Z (reduce (λ acc p, acc + quantity p) acc c) =
    Some (a + exact_total c)%Z.
Proof.
  unfold reduce. intros Hacc Ha Hc. revert acc a Hacc Ha.
  induction Hc as [|p c Hp Hc IH]; intros acc a Hacc Ha Hbound; simpl.
  - unfold exact_total. simpl. by rewrite Z.add_0_r.
  - change (exact_total (p :: c))
      with (exact_quantity p + exact_total c)%Z in *.
    pose proof (exact_total_nonnegative _ Hc) as Hnonneg.
    destruct (exact_quantity_spec _ Hp) as [Hq Hqpos].
    rewrite (IH (acc + quantity p) (a + exact_quantity p)%Z).
    + f_equal. lia.
    + apply add_exact; [done..|lia|lia].
    + lia.
    + lia.
Qed.

Lemma exact_sum_over c :
  positive_integer_quantities c →
  (exact_total c < 2 ^ 53)%Z →
  to_Z (sum_over quantity c) = Some (exact_total c).
Proof.
  intros Hc Hbound. rewrite <-reduce_sum_over.
  by rewrite (exact_count c 0 0%Z).
Qed.

(** Accepted items with whole quantities, given as literals. *)
Lemma valid_literal i n p q k :
  (0 <=? p) = true → to_Z q = Some k → (0 < k)%Z →
  valid_item (entry i n p q).
Proof.
  intros Hp Hq Hk. split_and!; simpl; [done|by exists k|].
  by apply (positive_to_Z q k).
Qed.

Ltac valid_literals :=
  repeat constructor; eapply valid_literal; try reflexivity; lia.

(** C5, counterexample.  After three accepted adds whose quantities
    add up to 2^53 + 1 the count is 2^53; and after four accepted adds,
    three of them under one id, the count is 2^53 + 2 where the four
    quantities added in the order of the calls give 2^53.  So the count
    is neither the sum of the quantities given in the integers nor
    their binary64 sum call after call. *)
Lemma getProductCount_counterexample :
  (Forall valid_item unsafe_adds
   ∧ result ((add_all (to_candidate <$> unsafe_adds);; getProductCount)
               initial) = Return 9007199254740992
   ∧ to_Z 9007199254740992 = Some 9007199254740992%Z
   ∧ exact_total unsafe_adds = 9007199254740993%Z)
  ∧ (Forall valid_item regrouped_adds
     ∧ result ((add_all (to_candidate <$> regrouped_adds);; getProductCount)
                 initial) = Return 9007199254740994
     ∧ sum_over quantity regrouped_adds = 9007199254740992).
Proof.
  split; split_and!; try (vm_compute; reflexivity); valid_literals.
Qed.

(** C5, amended.  After any sequence of valid [addProduct] calls on an
    empty cart whose quantities add up to less than 2^53, every call has
    returned and [getProductCount] returns the sum of the quantities
    given across the calls, repeated ids included; in any state
    [getProductCount] returns the binary64 sum of the stored
    quantities, added in cart order starting from 0, which is 0 on an
    empty cart, and leaves the cart state as it was. *)
Theorem getProductCount_correct (items : list Product) (d : number) :
  Forall valid_item items →
  (exact_total items < 2 ^ 53)%Z →
  (∃ n, result ((add_all (to_candidate <$> items);; getProductCount)
                  {| cart := []; discount := d |}) = Return n
        ∧ to_Z n = Some (exact_total items))
  ∧ (∀ s, result (getProductCount s) = Return (sum_over quantity (cart s))
          ∧ after (getProductCount s) = s)
  ∧ result (getProductCount {| cart := []; discount := d |}) = Return 0.
Proof.
  intros Hitems Hbound. split_and!.
  - unfold mbind at 1, M_bind. rewrite add_all_run by done.
    cbn [result after console]. rewrite getProductCount_run.
    cbn [result after cart]. eexists. split; [done|].
    destruct (exact_total_foldl items []) as [Hstored Htotal];
      [by apply valid_items_quantities|constructor|
       change (exact_total []) with 0%Z; lia|].
    change (exact_total []) with 0%Z in Htotal. rewrite Z.add_0_l in Htotal.
    rewrite exact_sum_over; [by rewrite Htotal|done|by rewrite Htotal].
  - intros s. by rewrite getProductCount_run.
  - by rewrite getProductCount_run.
Qed.

(** ** The invariants of the items *)

Lemma unique_ids_stored_after_add product c :
  unique_ids c → unique_ids (stored_after_add product c).
Proof.
  unfold unique_ids.
  destruct (first_entry_split (id product) c)
    as [Hmiss|(before & existing & rest & -> & Hid & Hbefore)].
  - rewrite stored_after_add_miss by done. intros Hc.
    rewrite fmap_app. apply list.NoDup_app. split_and!; [done| |apply NoDup_singleton].
    intros i (e & -> & He)%list_elem_of_fmap Hi. simpl in Hi.
    apply list_elem_of_singleton in Hi.
    rewrite Forall_forall in Hmiss. by apply (Hmiss e).
  - rewrite stored_after_add_hit by done. by rewrite !fmap_app.
Qed.

Lemma quantities_stored_after_add product c :
  positive_integer (quantity product) →
  Forall (λ p, positive_integer_or_Infinity (quantity p)) c →
  Forall (λ p, positive_integer_or_Infinity (quantity p))
    (stored_after_add product c).
Proof.
  intros Hproduct.
  destruct (first_entry_split (id product) c)
    as [Hmiss|(before & existing & rest & -> & Hid & Hbefore)].
  - rewrite stored_after_add_miss by done. intros Hc.
    apply Forall_app. split; [done|]. apply Forall_singleton. by left.
  - rewrite stored_after_add_hit by done.
    rewrite !Forall_app, !Forall_cons. simpl.
    intros (? & ? & ?). split_and!; try done.
    by apply add_positive_integer.
Qed.

Lemma unique_ids_filter (P : Product → Prop) `{!∀ p, Decision (P p)} c :
  unique_ids c → unique_ids (filter P c).
Proof.
  unfold unique_ids. intros Hc.
  apply (sublist_NoDup _ (id <$> c)); [done|].
  apply fmap_sublist, sublist_filter.
Qed.

Lemma Forall_filter_keeps {A} (Q P : A → Prop) `{!∀ x, Decision (P x)} l :
  Forall Q l → Forall Q (filter P l).
Proof.
  rewrite !Forall_forall.
  intros Hl x [_ Hx]%list_elem_of_filter. by apply Hl.
Qed.

Lemma reachable_run_calls cs s : reachable s → reachable (run_calls cs s).
Proof.
  revert s. induction cs as [|c cs IH]; intros s Hs; [done|].
  apply IH. by constructor.
Qed.

(** C6, counterexample.  Two accepted adds of the largest double under
    one id leave [Infinity] as the stored quantity, which is not an
    integer. *)
Lemma cart_invariants_counterexample :
  ProductSchema_parse (literal "1" "Bulk" 0 Number.MAX_VALUE) =
    Some (entry "1" "Bulk" 0 Number.MAX_VALUE)
  ∧ reachable (run_calls overflowing_calls initial)
  ∧ cart (run_calls overflowing_calls initial) = [entry "1" "Bulk" 0 infinity]
  ∧ ¬ positive_integer_quantities (cart (run_calls overflowing_calls initial)).
Proof.
  assert (cart (run_calls overflowing_calls initial)
          = [entry "1" "Bulk" 0 infinity]) as Hcart
    by (vm_compute; reflexivity).
  split_and!.
  - vm_compute; reflexivity.
  - apply reachable_run_calls. constructor.
  - done.
  - rewrite Hcart. intros [[[k Hk] _] _]%Forall_cons. discriminate.
Qed.

(** C6, amended.  In every state reachable from the initial empty cart
    through the exported functions, the items hold at most one entry per
    id, and the quantity of every stored item is a positive integer or
    [Infinity]. *)
Theorem cart_invariants (s : CartState) :
  reachable s →
  unique_ids (cart s)
  ∧ Forall (λ p, positive_integer_or_Infinity (quantity p)) (cart s).
Proof.
  induction 1 as [|c s _ [Hids Hquantities]].
  - split; [apply NoDup_nil_2|apply Forall_nil_2].
  - destruct c as [item|productId| | |code|]; unfold step.
    + destruct (ProductSchema_parse item) as [p|] eqn:Hitem.
      * rewrite (addProduct_accepted _ p) by done. simpl.
        apply parse_Some in Hitem as (_ & _ & Hint & Hpos).
        split; [by apply unique_ids_stored_after_add
               |by apply quantities_stored_after_add].
      * by rewrite addProduct_rejected.
    + rewrite removeProduct_run. simpl.
      split; [by apply unique_ids_filter|by apply Forall_filter_keeps].
    + by rewrite getProductCount_run.
    + by rewrite getTotal_run.
    + by pose proof (applyDiscount_keeps_items_aux code s) as ->.
    + rewrite resetCart_run. split; [apply NoDup_nil_2|apply Forall_nil_2].
Qed.

(** ** [removeProduct] *)

Lemma filter_keeps_all productId (c : list Product) :
  Forall (λ p, id p ≠ productId) c →
  filter (λ p, id p ≠ productId) c = c.
Proof.
  induction 1 as [|p c Hp _ IH]; [done|].
  by rewrite filter_cons_True, IH.
Qed.

Lemma removeProduct_twice productId s :
  removeProduct productId (after (removeProduct productId s)) =
    removeProduct productId s.
Proof.
  rewrite !removeProduct_run. simpl.
  by rewrite list_filter_filter_l.
Qed.

(** C7.  [removeProduct] returns from every state and leaves the
    discount rate alone.  The items it leaves are those of the cart
    whose id differs from the one given: when the entry with that id is
    stored, the cart afterwards is the cart without it, the other
    entries in their order; when no entry has that id, the whole cart
    state is exactly what it was, and so are the count and the total.
    Calling it a second time with the same id changes nothing more. *)
Theorem removeProduct_correct (productId : string) (s : CartState) :
  result (removeProduct productId s) = Return tt
  ∧ discount (after (removeProduct productId s)) = discount s
  ∧ (∀ p, p ∈ cart (after (removeProduct productId s)) ↔
          p ∈ cart s ∧ id p ≠ productId)
  ∧ (∀ before p rest,
       cart s = before ++ p :: rest →
       id p = productId →
       Forall (λ e, id e ≠ productId) (before ++ rest) →
       cart (after (removeProduct productId s)) = before ++ rest)
  ∧ (Forall (λ e, id e ≠ productId) (cart s) →
       after (removeProduct productId s) = s
       ∧ result (getProductCount (after (removeProduct productId s))) =
           result (getProductCount s)
       ∧ result (getTotal (after (removeProduct productId s))) =
           result (getTotal s))
  ∧ after (removeProduct productId (after (removeProduct productId s))) =
      after (removeProduct productId s).
Proof.
  split_and!.
  - done.
  - done.
  - intros p. rewrite removeProduct_run. simpl.
    rewrite list_elem_of_filter. tauto.
  - intros before p rest Hs Hp Hothers.
    rewrite removeProduct_run. simpl. rewrite Hs.
    rewrite list.filter_app, filter_cons_False by (by intros []).
    rewrite <-list.filter_app. by apply filter_keeps_all.
  - intros Hmiss.
    assert (after (removeProduct productId s) = s) as ->; [|done].
    rewrite removeProduct_run. simpl.
    rewrite filter_keeps_all by done. by destruct s.
  - by rewrite removeProduct_twice.
Qed.

(** * The cases of the test suite *)

(** "should add a product to the cart" *)
Example test_add_a_product :
  result ((addProduct (literal "1" "T-shirt" 20 2);; getProductCount) initial)
  = Return 2.
Proof. reflexivity. Qed.

(** "should increase quantity if product already exists" *)
Example test_increase_quantity :
  let run :=
    (addProduct (literal "1" "T-shirt" 20 1);;
     addProduct (literal "1" "T-shirt" 20 1);;
     getProductCount) initial in
  result run = Return 2 ∧ length (cart (after run)) = 1%nat.
Proof. split; reflexivity. Qed.

(** "should remove a product from the cart" *)
Example test_remove_a_product :
  result ((addProduct (literal "1" "T-shirt" 20 1);;
           removeProduct "1";;
           getProductCount) initial)
  = Return 0.
Proof. reflexivity. Qed.

(** "should do nothing if removing a non-existent product" *)
Example test_remove_missing :
  result ((removeProduct "not-found";; getProductCount) initial) = Return 0.
Proof. reflexivity. Qed.

(** "should return the number of items in the cart" *)
Example test_count :
  result ((addProduct (literal "1" "Item 1" 10 2);;
           addProduct (literal "2" "Item 2" 15 3);;
           getProductCount) initial)
  = Return 5.
Proof. reflexivity. Qed.

(** "should return the total price" *)
Example test_total :
  result ((addProduct (literal "1" "Item 1" 10 2);;
           addProduct (literal "2" "Item 2" 15 1);;
           getTotal) initial)
  = Return 35.
Proof. reflexivity. Qed.

(** "should apply a valid discount code" *)
Example test_valid_code :
  result ((addProduct (literal "1" "Item" 100 1);;
           applyDiscount "PROMO10";;
           getTotal) initial)
  = Return 90.
Proof. reflexivity. Qed.

(** "should ignore an invalid discount code" *)
Example test_invalid_code :
  let s := after (addProduct (literal "1" "Item" 100 1) initial) in
  result (applyDiscount "INVALIDE" s) = Throw (Error "Code promo invalide")
  ∧ result (getTotal (after (applyDiscount "INVALIDE" s))) = Return 100.
Proof. split; reflexivity. Qed.

(** "should reject invalid product data" *)
Example test_reject_invalid : ProductSchema_parse badProduct = None.
Proof. reflexivity. Qed.

(** ** Rounding, as the code shows it *)

(** Three items at 0.1: the total, returned and written, is not 0.3. *)
Example total_of_three_at_a_tenth :
  (addProduct (literal "1" "Sticker" 0.1 3);; getTotal) initial =
    mkRan (Return 0.30000000000000004)
      {| cart := [entry "1" "Sticker" 0.1 3]; discount := 0 |}
      [mkLine "Total before discount: " 0.30000000000000004].
Proof. reflexivity. Qed.

(** The promo code on one item at 13, and on one at 1.1. *)
Example discounted_total_of_13 :
  result ((addProduct (literal "1" "Item" 13 1);;
           applyDiscount "PROMO10";;
           getTotal) initial)
  = Return 11.700000000000001.
Proof. reflexivity. Qed.

Example discounted_total_of_1_1 :
  result ((addProduct (literal "1" "Item" 1.1 1);;
           applyDiscount "PROMO10";;
           getTotal) initial)
  = Return 0.9900000000000001.
Proof. reflexivity. Qed.

(** One more unit on a stored quantity of 2^53 leaves it where it is:
    the sum is rounded back. *)
Example one_more_on_2_53 :
  let s := after ((addProduct (literal "a" "A" 0 Number.MAX_SAFE_INTEGER);;
                   addProduct (literal "a" "A" 0 1)) initial) in
  cart s = [entry "a" "A" 0 9007199254740992]
  ∧ cart (after (addProduct (literal "a" "A" 0 1) s)) = cart s.
Proof. split; reflexivity. Qed.

(** After the overflow of a quantity the count is [Infinity], and the
    total of a free item is not a number. *)
Example queries_after_overflow :
  let s := run_calls overflowing_calls initial in
  result (getProductCount s) = Return infinity
  ∧ ∃ t, result (getTotal s) = Return t ∧ is_nan t = true.
Proof. split; [reflexivity|]. eexists. split; reflexivity. Qed.

(** The total after an add is computed anew from the cart: it is not
    the total before plus the discounted price of what was added. *)
Example total_after_add_is_recomputed :
  let s := after ((addProduct (literal "1" "A" 1 1);;
                   applyDiscount "PROMO10") initial) in
  result (getTotal s) = Return 0.9
  ∧ result (getTotal (after (addProduct (literal "2" "B" 6 1) s))) =
      Return 6.3
  ∧ 0.9 + 6 * 1 * (1 - 0.1) = 6.300000000000001.
Proof. split_and!; reflexivity. Qed.

(** ** Instances of the theorems *)

(** The rejected object of the test suite, against a cart that holds
    items and a discount: nothing moves. *)
Lemma addProduct_rejects_invalid_witness :
  violates badProduct
  ∧ result (addProduct badProduct two_items) = Throw ZodError
  ∧ after (addProduct badProduct two_items) = two_items.
Proof.
  assert (violates badProduct) as Hbad.
  { right; right; left. intros n [= <-]. right. reflexivity. }
  split; [exact Hbad|].
  exact (addProduct_rejects_invalid badProduct two_items Hbad).
Defined.

(** The valid code over a rate already at 0.1, and an invalid one. *)
Lemma applyDiscount_correct_witness :
  (result (applyDiscount "PROMO10" two_items) = Return tt
   ∧ after (applyDiscount "PROMO10" two_items) =
       {| cart := cart two_items; discount := 0.1 |})
  ∧ (result (applyDiscount "INVALIDE" two_items) =
       Throw (Error "Code promo invalide")
     ∧ after (applyDiscount "INVALIDE" two_items) = two_items).
Proof.
  split.
  - apply (applyDiscount_correct "PROMO10" two_items). reflexivity.
  - apply (applyDiscount_correct "INVALIDE" two_items). discriminate.
Defined.


(** Three calls, two of them under one id: 2 + 3 + 4. *)
Lemma getProductCount_correct_witness :
  ∃ n, result ((add_all (to_candidate <$> three_adds);; getProductCount)
                 {| cart := []; discount := 0 |}) = Return n
       ∧ to_Z n = Some 9%Z.
Proof.
  destruct (getProductCount_correct three_adds 0) as [Hcount _].
  - valid_literals.
  - vm_compute. reflexivity.
  - exact Hcount.
Defined.

(** The invariants in a state reached through five calls. *)
Lemma cart_invariants_witness :
  unique_ids (cart after_some_calls)
  ∧ Forall (λ p, positive_integer_or_Infinity (quantity p))
      (cart after_some_calls).
Proof.
  apply (cart_invariants after_some_calls).
  unfold after_some_calls. repeat constructor.
Defined.

(** Removing a stored id, and one that is not stored. *)
Lemma removeProduct_correct_witness :
  cart (after (removeProduct "2" two_items)) = [entry "1" "T-shirt" 15 3]
  ∧ after (removeProduct "9" two_items) = two_items.
Proof.
  split.
  - destruct (removeProduct_correct "2" two_items)
      as (_ & _ & _ & Hremoved & _).
    apply (Hremoved [] (entry "2" "Mug" 8 1) [entry "1" "T-shirt" 15 3]);
      [reflexivity..|].
    repeat constructor. discriminate.
  - destruct (removeProduct_correct "9" two_items)
      as (_ & _ & _ & _ & Hmiss & _).
    apply Hmiss. repeat constructor; discriminate.
Defined.

(** The discount rate in that state. *)
Lemma discount_is_0_or_PROMO10_witness :
  discount after_some_calls = 0 ∨ discount after_some_calls = 0.1.
Proof.
  destruct discount_is_0_or_PROMO10 as (_ & _ & Hreachable).
  apply Hreachable. unfold after_some_calls. repeat constructor.
Defined.

(** * Further properties of the module *)

(** ** The two schemas *)

Lemma test_price_schema v n :
  z.refine z.number z.positive v = Some n ↔
  z.refine z.number z.nonnegative v = Some n ∧ (n =? 0) = false.
Proof.
  unfold z.refine, z.positive, z.nonnegative.
  destruct (z.number v) as [m|]; [|by split; [|intros []]].
  pose proof (positive_nonnegative m) as Hm.
  destruct (0 <? m), (0 <=? m), (m =? 0) eqn:Hzero;
    try (by destruct (proj1 Hm eq_refl));
    try (by assert (false = true) by (by apply Hm));
    try (by split; [|intros []]).
  - split; [|by intros []]. intros [= <-]. by rewrite Hzero.
  - split; [done|]. intros [[= <-] ?]. congruence.
Qed.

(** X1.  The schema the test file declares for itself accepts exactly
    the candidates the module's schema accepts with a price other than
    0, and yields the same product: it is the stricter of the two, and a
    free item, which [addProduct] stores, is the only difference. *)
Theorem test_schema_stricter (c : Candidate) (p : Product) :
  cart_test.ProductSchema_parse c = Some p ↔
  ProductSchema_parse c = Some p ∧ (price p =? 0) = false.
Proof.
  unfold cart_test.ProductSchema_parse, ProductSchema_parse.
  destruct (z.string (c_id c)) as [i|]; [|by split; [|intros []]].
  destruct (z.string (c_name c)) as [n|]; [|by split; [|intros []]].
  destruct (z.refine z.number z.positive (c_price c)) as [pr|] eqn:Hpr.
  - apply test_price_schema in Hpr as [-> Hzero].
    destruct (z.refine (z.refine z.number z.int) z.positive (c_quantity c))
      as [q|]; [|by split; [|intros []]].
    split; [|by intros []]. by intros [= <-].
  - destruct (z.refine z.number z.nonnegative (c_price c))
      as [pr|] eqn:Hpr'; [|by split; [|intros []]].
    destruct (z.refine (z.refine z.number z.int) z.positive (c_quantity c))
      as [q|]; [|by split; [|intros []]].
    split; [done|]. intros [[= <-] Hzero]. simpl in Hzero.
    assert (z.refine z.number z.positive (c_price c) = Some pr) as Hyes
      by (by apply test_price_schema).
    congruence.
Qed.

(** ** Console and exceptions *)

Lemma addProduct_console item s : console (addProduct item s) = [].
Proof.
  destruct (ProductSchema_parse item) as [p|] eqn:Hitem.
  - by rewrite (addProduct_accepted _ p).
  - by rewrite addProduct_rejected.
Qed.

Lemma applyDiscount_console code s : console (applyDiscount code s) = [].
Proof.
  destruct (decide (code = "PROMO10")) as [->|Hcode].
  - by rewrite applyDiscount_PROMO10.
  - by rewrite applyDiscount_other.
Qed.

(** X2.  [getTotal] is the only exported function that writes to the
    console: it writes one line, carrying the total before the discount
    as the code computes it, whatever the discount is; every other
    call, returning or throwing, writes nothing. *)
Theorem only_getTotal_writes (c : Call) (s : CartState) :
  written c s =
    match c with
    | get_total => [mkLine "Total before discount: " (subtotal (cart s))]
    | _ => []
    end.
Proof.
  destruct c as [item|productId| | |code|]; unfold written.
  - apply addProduct_console.
  - by rewrite removeProduct_run.
  - by rewrite getProductCount_run.
  - by rewrite getTotal_run.
  - apply applyDiscount_console.
  - by rewrite resetCart_run.
Qed.

(** X3.  A call throws only when it is [addProduct] on a candidate that
    violates a constraint or [applyDiscount] on a code other than
    "PROMO10"; [removeProduct], [getProductCount], [getTotal] and
    [resetCart] never throw.  A call that throws leaves the cart state
    exactly as it was and writes nothing. *)
Theorem throwing_call_changes_nothing (c : Call) (s : CartState) (e : exn) :
  thrown c s = Some e →
  step c s = s
  ∧ written c s = []
  ∧ ((∃ item, c = add_product item ∧ violates item ∧ e = ZodError)
     ∨ (∃ code, c = apply_discount code ∧ code ≠ "PROMO10"
                ∧ e = Error "Code promo invalide")).
Proof.
  destruct c as [item|productId| | |code|]; unfold thrown, step, written, exception.
  - destruct (ProductSchema_parse item) as [p|] eqn:Hitem.
    + by rewrite (addProduct_accepted _ p).
    + rewrite addProduct_rejected by done. simpl. intros [= <-].
      split_and!; [done..|]. left. exists item. by rewrite <-parse_None.
  - by rewrite removeProduct_run.
  - by rewrite getProductCount_run.
  - by rewrite getTotal_run.
  - destruct (decide (code = "PROMO10")) as [->|Hcode].
    + by rewrite applyDiscount_PROMO10.
    + rewrite applyDiscount_other by done. simpl. intros [= <-].
      split_and!; [done..|]. right. by exists code.
  - by rewrite resetCart_run.
Qed.

(** ** How [addProduct] and [removeProduct] compose *)

Lemma filter_drops_all productId (c : list Product) :
  Forall (λ p, id p = productId) c →
  filter (λ p, id p ≠ productId) c = [].
Proof.
  induction 1 as [|p c Hp _ IH]; [done|].
  rewrite filter_cons_False; [done|]. by intros [].
Qed.

Lemma filter_stored_after_add product c :
  filter (λ p, id p ≠ id product) (stored_after_add product c) =
    filter (λ p, id p ≠ id product) c.
Proof.
  destruct (first_entry_split (id product) c)
    as [Hmiss|(before & existing & rest & -> & Hid & Hbefore)].
  - rewrite stored_after_add_miss, list.filter_app by done.
    rewrite (filter_drops_all _ [product]) by (by repeat constructor).
    by rewrite app_nil_r.
  - rewrite stored_after_add_hit, !list.filter_app by done.
    by rewrite !filter_cons_False by (by intros []).
Qed.

(** X4.  Removing a product right after adding it undoes the add: the
    state is the one [removeProduct] alone would have left, and when the
    cart did not hold the id it is exactly the state before the add. *)
Theorem remove_undoes_add (p : Product) (s : CartState) :
  valid_item p →
  after (removeProduct (id p) (after (addProduct (to_candidate p) s))) =
    after (removeProduct (id p) s)
  ∧ (Forall (λ e, id e ≠ id p) (cart s) →
     after (removeProduct (id p) (after (addProduct (to_candidate p) s))) = s).
Proof.
  intros Hp.
  rewrite (addProduct_accepted _ p) by (by apply parse_Some).
  rewrite !removeProduct_run. simpl. rewrite filter_stored_after_add.
  split; [done|]. intros Hmiss.
  rewrite filter_keeps_all by done. by destruct s.
Qed.

(** X5.  Adding a product right after removing its id stores the
    incoming item as it is, name and price included, at the end of the
    other entries: removal is what lets a later add replace the name and
    the price a merge would have kept. *)
Theorem add_after_remove_replaces (p : Product) (s : CartState) :
  valid_item p →
  cart (after (addProduct (to_candidate p)
                 (after (removeProduct (id p) s)))) =
    filter (λ e, id e ≠ id p) (cart s) ++ [p].
Proof.
  intros Hp.
  rewrite (addProduct_accepted _ p) by (by apply parse_Some).
  rewrite removeProduct_run. simpl.
  apply stored_after_add_miss.
  apply Forall_forall. by intros e [? _]%list_elem_of_filter.
Qed.

(** X7.  Removals commute: removing two ids in either order leaves the
    same state. *)
Theorem removals_commute (a b : string) (s : CartState) :
  after (removeProduct a (after (removeProduct b s))) =
    after (removeProduct b (after (removeProduct a s))).
Proof.
  rewrite !removeProduct_run. simpl. f_equal.
  rewrite !list_filter_filter. apply list_filter_iff. tauto.
Qed.

(** ** The total across an add *)

Lemma stored_after_add_label (p p' : Product) c :
  id p' = id p → quantity p' = quantity p →
  id p ∈ id <$> c →
  stored_after_add p' c = stored_after_add p c.
Proof.
  intros Hid Hquantity Hstored.
  destruct (first_entry_split (id p) c)
    as [Hmiss|(before & existing & rest & -> & Hexisting & Hbefore)].
  - apply list_elem_of_fmap in Hstored as (e & He & Hin).
    rewrite Forall_forall in Hmiss. by destruct (Hmiss e Hin).
  - rewrite (stored_after_add_hit p) by done.
    rewrite (stored_after_add_hit p') by (by rewrite Hid).
    by rewrite Hquantity.
Qed.

(** X8.  An accepted add of an id that is not stored adds the price
    given times the quantity given to the total before the discount, as
    the last term of the sum.  An accepted add of a stored id leaves the
    same state whatever name and price come with it: a changed price on
    a repeated add does not reach the total. *)
Theorem total_after_add (p : Product) (s : CartState) :
  valid_item p →
  (Forall (λ e, id e ≠ id p) (cart s) →
   result (getTotal (after (addProduct (to_candidate p) s))) =
     Return ((subtotal (cart s) + price p * quantity p) * (1 - discount s)))
  ∧ (∀ p', valid_item p' → id p' = id p → quantity p' = quantity p →
       id p ∈ id <$> cart s →
       after (addProduct (to_candidate p') s) =
         after (addProduct (to_candidate p) s)
       ∧ result (getTotal (after (addProduct (to_candidate p') s))) =
           result (getTotal (after (addProduct (to_candidate p) s)))).
Proof.
  intros Hp. split.
  - intros Hmiss.
    rewrite (addProduct_accepted _ p) by (by apply parse_Some).
    rewrite getTotal_run. cbn [result after cart discount].
    rewrite stored_after_add_miss by done.
    unfold subtotal. by rewrite sum_over_snoc.
  - intros p' Hp' Hid Hquantity Hstored.
    assert (after (addProduct (to_candidate p') s) =
              after (addProduct (to_candidate p) s)) as ->; [|done].
    rewrite (addProduct_accepted (to_candidate p) p),
      (addProduct_accepted (to_candidate p') p') by (by apply parse_Some).
    cbn [after]. by rewrite (stored_after_add_label p p').
Qed.

(** ** What the queries return in a reachable state *)

Lemma nonnegative_prices_stored_after_add product c :
  (0 <=? price product) = true →
  Forall (λ p, (0 <=? price p) = true) c →
  Forall (λ p, (0 <=? price p) = true) (stored_after_add product c).
Proof.
  intros Hprice.
  destruct (first_entry_split (id product) c)
    as [Hmiss|(before & existing & rest & -> & Hid & Hbefore)].
  - rewrite stored_after_add_miss by done. intros Hc.
    apply Forall_app. split; [done|]. by apply Forall_singleton.
  - rewrite stored_after_add_hit by done.
    by rewrite !Forall_app, !Forall_cons.
Qed.

(** Unique ids and quantities along the calls. *)
Lemma reachable_items (s : CartState) :
  reachable s →
  unique_ids (cart s)
  ∧ Forall (λ p, positive_integer_or_Infinity (quantity p)) (cart s).
Proof.
  induction 1 as [|c s _ [Hids Hquantities]].
  - split; [apply NoDup_nil_2|apply Forall_nil_2].
  - destruct c as [item|productId| | |code|]; unfold step.
    + destruct (ProductSchema_parse item) as [p|] eqn:Hitem.
      * rewrite (addProduct_accepted _ p) by done. simpl.
        apply parse_Some in Hitem as (_ & _ & Hint & Hpos).
        split; [by apply unique_ids_stored_after_add
               |by apply quantities_stored_after_add].
      * by rewrite addProduct_rejected.
    + rewrite removeProduct_run. simpl.
      split; [by apply unique_ids_filter|by apply Forall_filter_keeps].
    + by rewrite getProductCount_run.
    + by rewrite getTotal_run.
    + by pose proof (applyDiscount_keeps_items_aux code s) as ->.
    + rewrite resetCart_run. split; [apply NoDup_nil_2|apply Forall_nil_2].
Qed.

(** X10.  In every reachable state every stored price is a number that
    is at least 0: no stored price is negative or [NaN]. *)
Theorem reachable_prices (s : CartState) :
  reachable s →
  Forall (λ p, (0 <=? price p) = true ∧ is_nan (price p) = false
               ∧ (price p <? 0) = false) (cart s).
Proof.
  intros Hs.
  assert (Forall (λ p, (0 <=? price p) = true) (cart s)) as Hprices.
  { induction Hs as [|c s _ Hprices]; [apply Forall_nil_2|].
    destruct c as [item|productId| | |code|]; unfold step.
    - destruct (ProductSchema_parse item) as [p|] eqn:Hitem.
      + rewrite (addProduct_accepted _ p) by done. simpl.
        apply parse_Some in Hitem as (_ & Hprice & _).
        by apply nonnegative_prices_stored_after_add.
      + by rewrite addProduct_rejected.
    - rewrite removeProduct_run. by apply Forall_filter_keeps.
    - by rewrite getProductCount_run.
    - by rewrite getTotal_run.
    - by rewrite applyDiscount_keeps_items_aux.
    - rewrite resetCart_run. apply Forall_nil_2. }
  eapply Forall_impl; [exact Hprices|]. intros p Hp. split_and!.
  - done.
  - by apply nonnegative_not_nan.
  - destruct (price p <? 0) eqn:Hneg; [|done].
    apply negative_not_nonnegative in Hneg. congruence.
Qed.

Lemma count_of_quantities (c : list Product) :
  Forall (λ p, positive_integer_or_Infinity (quantity p)) c →
  c ≠ [] → positive_integer_or_Infinity (sum_over quantity c).
Proof.
  induction c as [|p c IH] using rev_ind; [done|].
  intros [Hc [Hp _]%Forall_cons]%Forall_app _.
  rewrite sum_over_snoc. destruct c as [|p' c].
  - rewrite sum_over_nil. by rewrite add_0_l.
  - apply add_quantities; [by apply IH|done].
Qed.

(** X11.  In every reachable state [getProductCount] returns 0 when the
    cart is empty, and otherwise a positive integer or [Infinity]; it
    returns 0 only when the cart is empty. *)
Theorem reachable_count (s : CartState) (n : number) :
  reachable s →
  result (getProductCount s) = Return n →
  (cart s = [] → n = 0)
  ∧ (cart s ≠ [] → positive_integer_or_Infinity n)
  ∧ (n = 0 → cart s = []).
Proof.
  intros [_ Hquantities]%reachable_items Hn.
  rewrite getProductCount_run in Hn. injection Hn as <-.
  split_and!.
  - by intros ->.
  - by apply count_of_quantities.
  - intros Hzero. destruct (cart s) as [|p c] eqn:Hs; [done|].
    exfalso. eapply quantity_not_0; [|exact Hzero].
    by apply count_of_quantities.
Qed.

(** ** The discount across calls *)

Lemma run_calls_cons c cs s : run_calls (c :: cs) s = run_calls cs (step c s).
Proof. reflexivity. Qed.

Lemma discount_kept (cs : list Call) (s : CartState) :
  Forall (λ c, c ≠ reset_cart) cs →
  discount s = 0.1 →
  discount (run_calls cs s) = 0.1.
Proof.
  intros Hcs. revert s.
  induction Hcs as [|c cs Hc _ IH]; intros s Hs; [done|].
  rewrite run_calls_cons. apply IH. rewrite discount_step.
  destruct c; try done. by case_decide.
Qed.

(** X12.  Once "PROMO10" is applied, the discount stays in force across
    any calls other than [resetCart], adds, removals and rejected codes
    included, even if the cart is emptied in between: [getTotal] then
    returns the total before the discount times 0.9, which is what
    1 - 0.1 is in binary64. *)
Theorem discount_lasts_until_reset (cs : list Call) (s : CartState) :
  Forall (λ c, c ≠ reset_cart) cs →
  discount (run_calls cs (after (applyDiscount "PROMO10" s))) = 0.1
  ∧ result (getTotal (run_calls cs (after (applyDiscount "PROMO10" s)))) =
      Return
        (subtotal (cart (run_calls cs (after (applyDiscount "PROMO10" s))))
         * 0.9).
Proof.
  intros Hcs.
  assert (discount (run_calls cs (after (applyDiscount "PROMO10" s)))
          = 0.1) as Hdiscount.
  { apply discount_kept; [done|]. by rewrite applyDiscount_PROMO10. }
  split; [done|].
  rewrite getTotal_run. cbn [result]. rewrite Hdiscount. unfold subtotal.
  reflexivity.
Qed.

(** ** What a sequence of adds stores *)

Lemma fmap_stored_after_add {B} (f : Product → B) product c :
  (∀ e n, f (add_quantity e n) = f e) →
  f <$> stored_after_add product c =
    (f <$> c) ++ (if decide (id product ∈ id <$> c) then [] else [f product]).
Proof.
  intros Hf.
  destruct (first_entry_split (id product) c)
    as [Hmiss|(before & existing & rest & -> & Hid & Hbefore)].
  - rewrite stored_after_add_miss, fmap_app by done.
    rewrite decide_False; [done|].
    intros (e & Hid & He)%list_elem_of_fmap.
    rewrite Forall_forall in Hmiss. by apply (Hmiss e).
  - rewrite stored_after_add_hit by done.
    rewrite decide_True, app_nil_r.
    + by rewrite !fmap_app, !fmap_cons, Hf.
    + rewrite <-Hid. apply list_elem_of_fmap_2.
      apply elem_of_app. right. by left.
Qed.

(** X13.  An accepted add never reorders the cart and never changes the
    id, name or price of a stored entry: the ids, names and prices
    afterwards are those before, in the same order, followed by those of
    the incoming item when its id was not stored. *)
Theorem add_keeps_entries_in_place (p : Product) (s : CartState) :
  valid_item p →
  label <$> cart (after (addProduct (to_candidate p) s)) =
    (label <$> cart s) ++
    (if decide (id p ∈ id <$> cart s) then [] else [label p]).
Proof.
  intros Hp.
  rewrite (addProduct_accepted _ p) by (by apply parse_Some). simpl.
  by apply fmap_stored_after_add.
Qed.

Lemma first_label_stored_after_add i product (c rest : list Product) :
  head (label <$> filter (λ e, id e = i) (stored_after_add product c ++ rest)) =
  head (label <$> filter (λ e, id e = i) (c ++ product :: rest)).
Proof.
  destruct (first_entry_split (id product) c)
    as [Hmiss|(before & existing & others & -> & Hid & Hbefore)].
  - rewrite stored_after_add_miss by done. by rewrite <-app_assoc.
  - rewrite stored_after_add_hit by done.
    rewrite <-!app_assoc, !list.filter_app. simpl.
    rewrite !filter_cons. simpl. rewrite Hid.
    destruct (decide (id product = i)) as [<-|Hi].
    + assert (filter (λ e, id e = id product) before = []) as ->; [|done].
      clear -Hbefore. induction Hbefore as [|e before He _ IH]; [done|].
      by rewrite filter_cons_False.
    + done.
Qed.

Lemma first_label_foldl i (items c : list Product) :
  head (label <$> filter (λ e, id e = i)
                    (foldl (λ c p, stored_after_add p c) c items)) =
  head (label <$> filter (λ e, id e = i) (c ++ items)).
Proof.
  revert c. induction items as [|p items IH]; intros c; simpl foldl.
  - by rewrite app_nil_r.
  - rewrite IH. apply first_label_stored_after_add.
Qed.

Lemma ids_foldl i (items c : list Product) :
  i ∈ id <$> foldl (λ c p, stored_after_add p c) c items ↔
  i ∈ id <$> c ∨ i ∈ id <$> items.
Proof.
  revert c. induction items as [|p items IH]; intros c; simpl foldl.
  - rewrite fmap_nil, elem_of_nil. tauto.
  - rewrite IH, fmap_stored_after_add by done.
    rewrite fmap_cons, elem_of_app, elem_of_cons.
    case_decide as Hp.
    + rewrite elem_of_nil. split; [tauto|].
      intros [?|[->|?]]; tauto.
    + rewrite list_elem_of_singleton. tauto.
Qed.

Lemma unique_ids_foldl (items c : list Product) :
  unique_ids c →
  unique_ids (foldl (λ c p, stored_after_add p c) c items).
Proof.
  revert c. induction items as [|p items IH]; intros c Hc; [done|].
  simpl. by apply IH, unique_ids_stored_after_add.
Qed.

Lemma unique_ids_others (before rest : list Product) p :
  unique_ids (before ++ p :: rest) →
  Forall (λ e, id e ≠ id p) (before ++ rest).
Proof.
  unfold unique_ids. rewrite fmap_app, fmap_cons. intros Hc.
  apply list.NoDup_app in Hc as (_ & Hbefore & [Hrest _]%NoDup_cons).
  apply Forall_app. split; apply Forall_forall; intros e He Hid.
  - apply (Hbefore (id p)); [|by left].
    rewrite <-Hid. by apply list_elem_of_fmap_2.
  - apply Hrest. rewrite <-Hid. by apply list_elem_of_fmap_2.
Qed.

Lemma unique_entry_split (c : list Product) p :
  unique_ids c → p ∈ c →
  ∃ before rest,
    c = before ++ p :: rest ∧ Forall (λ e, id e ≠ id p) (before ++ rest).
Proof.
  intros Hc (before & rest & ->)%list_elem_of_split.
  exists before, rest. split; [done|]. by apply unique_ids_others.
Qed.

Lemma filter_none (i : string) (l : list Product) :
  Forall (λ x, id x ≠ i) l → filter (λ x, id x = i) l = [].
Proof.
  induction 1 as [|x l Hx _ IH]; [done|]. by rewrite filter_cons_False.
Qed.

Lemma filter_only_entry (c : list Product) e :
  unique_ids c → e ∈ c → filter (λ x, id x = id e) c = [e].
Proof.
  intros Hc He.
  destruct (unique_entry_split _ _ Hc He) as (before & rest & -> & Hothers).
  apply Forall_app in Hothers as [Hbefore Hrest].
  rewrite list.filter_app, filter_cons_True by done.
  by rewrite !filter_none.
Qed.

(** The quantity an entry holds after a sequence of adds: what the
    code has added up under its id, one call after the other. *)
Lemma quantity_foldl (items : list Product) e :
  Forall valid_item items →
  e ∈ foldl (λ c p, stored_after_add p c) [] items →
  quantity e = sum_over quantity (filter (λ x, id x = id e) items).
Proof.
  revert e. induction items as [|p items IH] using rev_ind; intros e.
  - by intros _ ?%elem_of_nil.
  - intros [Hitems [Hp _]%Forall_cons]%Forall_app.
    rewrite foldl_app. simpl foldl.
    pose proof (unique_ids_foldl items [] (NoDup_nil_2 (A:=string)))
      as Hunique.
    pose proof (ids_foldl (id p) items []) as Hids.
    set (c := foldl (λ c p, stored_after_add p c) [] items) in *.
    rewrite list.filter_app.
    destruct (first_entry_split (id p) c)
      as [Hmiss|(before & existing & rest & Hc & Hid & Hbefore)].
    + rewrite stored_after_add_miss by done.
      intros [He| ->%list_elem_of_singleton]%elem_of_app.
      * rewrite Forall_forall in Hmiss.
        rewrite (filter_none (id e) [p])
          by (apply Forall_singleton; intros Heq; by apply (Hmiss e)).
        rewrite app_nil_r. by apply IH.
      * rewrite (filter_none (id p) items).
        { rewrite filter_cons_True, filter_nil by done.
          rewrite sum_over_snoc, sum_over_nil.
          rewrite add_0_l; [done|]. left. by destruct Hp as (_ & ? & ?). }
        apply Forall_forall. intros x Hx Heq.
        assert (id p ∈ id <$> c) as (y & Hy & Hin)%list_elem_of_fmap.
        { apply Hids. right. rewrite <-Heq. by apply list_elem_of_fmap_2. }
        rewrite Forall_forall in Hmiss. by apply (Hmiss y).
    + rewrite Hc in Hunique |- *. rewrite stored_after_add_hit by done.
      pose proof (unique_ids_others _ _ _ Hunique) as Hothers.
      rewrite Hid in Hothers.
      apply Forall_app in Hothers as [_ Hrest].
      assert (∀ x, x ∈ before ++ rest →
                quantity x =
                  sum_over quantity
                    (filter (λ y, id y = id x) items ++
                     filter (λ y, id y = id x) [p])) as Hkept.
      { intros x Hx.
        assert (id x ≠ id p) as Hne.
        { apply elem_of_app in Hx as [Hx|Hx].
          - rewrite Forall_forall in Hbefore. by apply Hbefore.
          - rewrite Forall_forall in Hrest. by apply Hrest. }
        rewrite (filter_none (id x) [p])
          by (apply Forall_singleton; congruence).
        rewrite app_nil_r. apply IH; [done|]. rewrite Hc.
        apply elem_of_app in Hx as [Hx|Hx]; apply elem_of_app;
          [by left|right; by right]. }
      intros [He|[->|He]%elem_of_cons]%elem_of_app.
      * apply Hkept, elem_of_app. by left.
      * simpl id. rewrite Hid, filter_cons_True, filter_nil by done.
        rewrite sum_over_snoc. simpl. f_equal.
        rewrite <-Hid. apply IH; [done|]. rewrite Hc.
        apply elem_of_app. right. by left.
      * apply Hkept, elem_of_app. by right.
Qed.

(** X14.  After any sequence of accepted adds on an empty cart, the
    cart holds one entry for each id given and no other; the quantity of
    an entry is the sum of the quantities given under its id, added in
    the order of the calls, and its name and price are those of the
    first item given under that id. *)
Theorem cart_after_adds (items : list Product) (d : number) (e : Product) :
  Forall valid_item items →
  e ∈ cart (after (add_all (to_candidate <$> items)
                     {| cart := []; discount := d |})) →
  id e ∈ id <$> items
  ∧ filter (λ x, id x = id e)
      (cart (after (add_all (to_candidate <$> items)
                      {| cart := []; discount := d |}))) = [e]
  ∧ quantity e = sum_over quantity (filter (λ x, id x = id e) items)
  ∧ head (label <$> filter (λ x, id x = id e) items) = Some (label e).
Proof.
  intros Hitems. rewrite add_all_run by done. simpl. intros He.
  assert (filter (λ x, id x = id e)
            (foldl (λ c p, stored_after_add p c) [] items) = [e]) as Honly.
  { apply filter_only_entry; [|done].
    apply unique_ids_foldl, NoDup_nil_2. }
  split_and!.
  - apply (list_elem_of_fmap_2 id) in He.
    apply ids_foldl in He as [He|He]; [|done]. by apply elem_of_nil in He.
  - done.
  - by apply quantity_foldl.
  - pose proof (first_label_foldl (id e) items []) as Hfirst.
    by rewrite Honly in Hfirst.
Qed.

(** X15.  After accepted adds on an empty cart, every id given is
    stored. *)
Theorem ids_after_adds (items : list Product) (d : number) (i : string) :
  Forall valid_item items →
  i ∈ id <$> items →
  i ∈ id <$> cart (after (add_all (to_candidate <$> items)
                            {| cart := []; discount := d |})).
Proof.
  intros Hitems Hi. rewrite add_all_run by done. simpl.
  apply ids_foldl. by right.
Qed.

(** ** Adds and removals while the quantities stay below 2^53 *)

Lemma add_quantity_twice existing (q q' : number) a b b' :
  to_Z (quantity existing) = Some a → to_Z q = Some b → to_Z q' = Some b' →
  (0 < a)%Z → (0 < b)%Z → (0 < b')%Z → (a + b + b' < 2 ^ 53)%Z →
  add_quantity (add_quantity existing q) q' = add_quantity existing (q + q').
Proof.
  intros Ha Hb Hb' Hapos Hbpos Hbpos' Hbound.
  unfold add_quantity. simpl. f_equal.
  apply (to_Z_inj _ _ (a + b + b')%Z); [| |lia].
  - apply add_exact; [|done|lia..]. apply add_exact; [done..|lia|lia|lia].
  - rewrite <-Z.add_assoc.
    apply add_exact; [done| |lia..]. apply add_exact; [done..|lia|lia|lia].
Qed.

Lemma exact_total_entry (before rest : list Product) e :
  positive_integer_quantities (before ++ e :: rest) →
  (exact_quantity e ≤ exact_total (before ++ e :: rest))%Z.
Proof.
  intros [Hbefore [_ Hrest]%Forall_cons]%Forall_app.
  apply exact_total_nonnegative in Hbefore, Hrest.
  rewrite exact_total_app.
  change (exact_total (e :: rest))
    with (exact_quantity e + exact_total rest)%Z. lia.
Qed.

Lemma stored_after_add_twice (p p' : Product) c :
  id p' = id p →
  positive_integer (quantity p) → positive_integer (quantity p') →
  positive_integer_quantities c →
  (exact_total c + exact_quantity p + exact_quantity p' < 2 ^ 53)%Z →
  stored_after_add p' (stored_after_add p c) =
    stored_after_add (add_quantity p (quantity p')) c.
Proof.
  intros Hid Hp Hp' Hc Hbound.
  destruct (first_entry_split (id p) c)
    as [Hmiss|(before & existing & rest & -> & Hexisting & Hbefore)].
  - rewrite (stored_after_add_miss p), (stored_after_add_miss (add_quantity _ _))
      by done.
    apply stored_after_add_hit; [done|by rewrite Hid].
  - rewrite (stored_after_add_hit p) by done.
    rewrite (stored_after_add_hit (add_quantity _ _)) by done.
    rewrite stored_after_add_hit; [|by rewrite Hid|by rewrite Hid].
    simpl. pose proof (exact_total_entry _ _ _ Hc) as Hle.
    apply Forall_app in Hc as [_ [He _]%Forall_cons].
    destruct (exact_quantity_spec _ He) as [Ha Hapos].
    destruct (exact_quantity_spec _ Hp) as [Hb Hbpos].
    destruct (exact_quantity_spec _ Hp') as [Hb' Hbpos'].
    by rewrite (add_quantity_twice existing _ _ _ _ _ Ha Hb Hb') by lia.
Qed.

(** X6.  While the quantities in the cart and the two given add up to
    less than 2^53, two accepted adds under one id amount to a single
    add of the first item with the two quantities added: the second
    item's name and price never reach the cart, whether or not the id
    was stored before. *)
Theorem two_adds_merge (p p' : Product) (s : CartState) :
  valid_item p → valid_item p' → id p' = id p →
  positive_integer_quantities (cart s) →
  (exact_total (cart s) + exact_quantity p + exact_quantity p' < 2 ^ 53)%Z →
  after (addProduct (to_candidate p') (after (addProduct (to_candidate p) s))) =
    after (addProduct
             (to_candidate
                {| id := id p; name := name p; price := price p;
                   quantity := quantity p + quantity p' |}) s).
Proof.
  intros Hp Hp' Hid Hs Hbound.
  assert (positive_integer (quantity p)) as Hq
    by (by destruct Hp as (_ & ? & ?)).
  assert (positive_integer (quantity p')) as Hq'
    by (by destruct Hp' as (_ & ? & ?)).
  assert (valid_item (add_quantity p (quantity p'))) as Hsum.
  { destruct (exact_quantity_spec _ Hq) as [Hb Hbpos].
    destruct (exact_quantity_spec _ Hq') as [Hb' Hbpos'].
    pose proof (exact_total_nonnegative _ Hs).
    assert (positive_integer (quantity p + quantity p')) as [? ?].
    { apply positive_integer_to_Z. eexists. split.
      - apply add_exact; [done..|lia|lia|lia].
      - lia. }
    destruct Hp as (Hprice & _). by split_and!. }
  rewrite (addProduct_accepted (to_candidate p') p'),
    (addProduct_accepted (to_candidate p) p) by (by apply parse_Some).
  rewrite (addProduct_accepted _ (add_quantity p (quantity p')))
    by (by apply parse_Some).
  simpl. by rewrite stored_after_add_twice.
Qed.

Lemma filter_unique_entry productId (before rest : list Product) p :
  id p = productId →
  Forall (λ e, id e ≠ productId) (before ++ rest) →
  filter (λ e, id e ≠ productId) (before ++ p :: rest) = before ++ rest.
Proof.
  intros Hp Hothers.
  rewrite list.filter_app, filter_cons_False by (by intros []).
  rewrite <-list.filter_app. by apply filter_keeps_all.
Qed.

(** X9.  In a cart with one entry per id whose quantities are positive
    integers adding up to less than 2^53, the count is that sum, and
    removing a stored product lowers it by the quantity of the
    product. *)
Theorem count_after_remove (p : Product) (s : CartState) :
  unique_ids (cart s) →
  positive_integer_quantities (cart s) →
  (exact_total (cart s) < 2 ^ 53)%Z →
  p ∈ cart s →
  ∃ n n',
    result (getProductCount s) = Return n
    ∧ result (getProductCount (after (removeProduct (id p) s))) = Return n'
    ∧ to_Z n = Some (exact_total (cart s))
    ∧ to_Z n' = Some (exact_total (cart s) - exact_quantity p)%Z.
Proof.
  intros Hids Hquantities Hbound Hp.
  destruct (unique_entry_split _ _ Hids Hp) as (before & rest & Hs & Hothers).
  rewrite !getProductCount_run, removeProduct_run.
  cbn [result after cart discount]. do 2 eexists.
  split_and!; [done|done|by apply exact_sum_over|].
  rewrite Hs in Hquantities, Hbound |- *.
  rewrite filter_unique_entry by done.
  apply Forall_app in Hquantities as [Hbefore [He Hrest]%Forall_cons].
  destruct (exact_quantity_spec _ He) as [_ Hepos].
  rewrite exact_total_app in Hbound |- *.
  change (exact_total (p :: rest))
    with (exact_quantity p + exact_total rest)%Z in *.
  rewrite exact_sum_over.
  - rewrite exact_total_app. f_equal. lia.
  - by apply Forall_app.
  - rewrite exact_total_app. lia.
Qed.

(** ** Instances of the further properties *)

Ltac valid_literal_item := eapply valid_literal; try reflexivity; lia.

Lemma two_items_quantities : positive_integer_quantities (cart two_items).
Proof.
  repeat constructor; try (eexists; reflexivity).
Qed.

(** The rejected object of the test suite, as a call. *)
Lemma throwing_call_changes_nothing_witness :
  step (add_product badProduct) two_items = two_items
  ∧ written (add_product badProduct) two_items = []
  ∧ ((∃ item, add_product badProduct = add_product item
              ∧ violates item ∧ ZodError = ZodError)
     ∨ (∃ code, add_product badProduct = apply_discount code
                ∧ code ≠ "PROMO10"
                ∧ ZodError = Error "Code promo invalide")).
Proof.
  apply (throwing_call_changes_nothing (add_product badProduct) two_items).
  reflexivity.
Defined.

(** A cap added to, then removed from, a cart that does not hold it. *)
Lemma remove_undoes_add_witness :
  after (removeProduct "3"
           (after (addProduct (literal "3" "Cap" 12 1) two_items))) =
    two_items.
Proof.
  apply (remove_undoes_add (entry "3" "Cap" 12 1) two_items).
  - valid_literal_item.
  - repeat constructor; discriminate.
Defined.

(** The T-shirt removed, then added under a new name and price. *)
Lemma add_after_remove_replaces_witness :
  cart (after (addProduct (literal "1" "Shirt, renamed" 20 2)
                 (after (removeProduct "1" two_items)))) =
    [entry "2" "Mug" 8 1; entry "1" "Shirt, renamed" 20 2].
Proof.
  apply (add_after_remove_replaces (entry "1" "Shirt, renamed" 20 2) two_items).
  valid_literal_item.
Defined.

(** Two adds under the id "3", the second with another name and price. *)
Lemma two_adds_merge_witness :
  after (addProduct (literal "3" "Other" 25 2)
           (after (addProduct (literal "3" "Cap" 12 1) two_items))) =
    after (addProduct
             (to_candidate
                {| id := "3"; name := "Cap"; price := 12;
                   quantity := 1 + 2 |}) two_items).
Proof.
  apply (two_adds_merge (entry "3" "Cap" 12 1) (entry "3" "Other" 25 2)
           two_items).
  - valid_literal_item.
  - valid_literal_item.
  - reflexivity.
  - exact two_items_quantities.
  - vm_compute. reflexivity.
Defined.

(** A cap at 12 added to the cart of two entries: 12 times 1 is the
    last term of the sum. *)
Lemma total_after_add_witness :
  result (getTotal (after (addProduct (literal "3" "Cap" 12 1) two_items))) =
    Return ((subtotal (cart two_items) + 12 * 1) * (1 - discount two_items)).
Proof.
  destruct (total_after_add (entry "3" "Cap" 12 1) two_items)
    as [Hfresh _].
  - valid_literal_item.
  - apply Hfresh. repeat constructor; discriminate.
Defined.

(** The mug removed from the cart of two entries: 4 - 1. *)
Lemma count_after_remove_witness :
  ∃ n n',
    result (getProductCount two_items) = Return n
    ∧ result (getProductCount (after (removeProduct "2" two_items))) =
        Return n'
    ∧ to_Z n = Some 4%Z
    ∧ to_Z n' = Some (4 - 1)%Z.
Proof.
  apply (count_after_remove (entry "2" "Mug" 8 1) two_items).
  - apply (bool_decide_unpack _). reflexivity.
  - exact two_items_quantities.
  - vm_compute. reflexivity.
  - by left.
Defined.

(** The state reached through five calls. *)
Lemma reachable_prices_witness :
  Forall (λ p, (0 <=? price p) = true ∧ is_nan (price p) = false
               ∧ (price p <? 0) = false) (cart after_some_calls).
Proof.
  apply (reachable_prices after_some_calls).
  unfold after_some_calls. repeat constructor.
Defined.

Lemma reachable_count_witness :
  (cart after_some_calls = [] → sum_over quantity (cart after_some_calls) = 0)
  ∧ (cart after_some_calls ≠ [] →
     positive_integer_or_Infinity (sum_over quantity (cart after_some_calls)))
  ∧ (sum_over quantity (cart after_some_calls) = 0 →
     cart after_some_calls = []).
Proof.
  apply (reachable_count after_some_calls).
  - unfold after_some_calls. repeat constructor.
  - by rewrite getProductCount_run.
Defined.

(** An add, a removal that empties the cart, a rejected code and a
    query, after the promo code. *)
Lemma discount_lasts_until_reset_witness :
  discount
    (run_calls [add_product (literal "1" "T-shirt" 20 1);
                remove_product "1"; apply_discount "INVALIDE"; get_total]
       (after (applyDiscount "PROMO10" initial))) = 0.1.
Proof.
  apply (discount_lasts_until_reset
           [add_product (literal "1" "T-shirt" 20 1);
            remove_product "1"; apply_discount "INVALIDE"; get_total]
           initial).
  repeat constructor; discriminate.
Defined.

(** A stored id and a new one. *)
Lemma add_keeps_entries_in_place_witness :
  label <$> cart (after (addProduct (literal "1" "Shirt, renamed" 20 2)
                           two_items)) =
    label <$> cart two_items
  ∧ label <$> cart (after (addProduct (literal "3" "Cap" 12 1) two_items)) =
      (label <$> cart two_items) ++ [label (entry "3" "Cap" 12 1)].
Proof.
  split.
  - apply (add_keeps_entries_in_place (entry "1" "Shirt, renamed" 20 2)
             two_items).
    valid_literal_item.
  - apply (add_keeps_entries_in_place (entry "3" "Cap" 12 1) two_items).
    valid_literal_item.
Defined.

(** The three adds, two of them under the id "1": quantities 2 and 4. *)
Lemma cart_after_adds_witness :
  quantity (add_quantity (entry "1" "Item 1" 10 2) 4) =
    sum_over quantity (filter (λ x, id x = "1") three_adds).
Proof.
  destruct (cart_after_adds three_adds 0
              (add_quantity (entry "1" "Item 1" 10 2) 4))
    as (_ & _ & Hquantity & _).
  - valid_literals.
  - rewrite add_all_run by valid_literals. by left.
  - exact Hquantity.
Defined.

Lemma ids_after_adds_witness :
  "2" ∈ id <$> cart (after (add_all (to_candidate <$> three_adds)
                              {| cart := []; discount := 0 |})).
Proof.
  apply (ids_after_adds three_adds 0 "2").
  - valid_literals.
  - right. by left.
Defined.
